(** * esbuild-plugin-html: a shallow embedding of [src/index.ts]

    The plugin runs after an esbuild build: for every configured HTML file it
    collects the build outputs of the requested entry points, the outputs
    related to them, renders a template and injects <script>/<link> tags.

    Conventions of the embedding:
    - a JavaScript string is a list of code units, [list ascii] (code units
      0..255); [lit] turns a literal into such a list;
    - [undefined] is [None]; a string is truthy when it is not empty;
    - an exception is the [Throw] case of [result];
    - the built-ins the source calls ([String.prototype.replace],
      [RegExp], [Map]) are modelled in their own modules, the Node [path]
      module is an interface ([PathModule]) with a POSIX instance, and the
      file system and [lodash.template] are parameters of the plugin. *)

From Stdlib Require Import Ascii String List Bool Arith Lia.
Import ListNotations.
Open Scope list_scope.

(** ** Strings *)

Definition str := list ascii.

Definition lit (s : string) : str := list_ascii_of_string s.

Definition dquote : ascii := ascii_of_nat 34.

Definition truthy (s : str) : bool :=
  match s with [] => false | _ :: _ => true end.

Definition truthy_opt (s : option str) : bool :=
  match s with Some t => truthy t | None => false end.

Fixpoint str_eqb (a b : str) : bool :=
  match a, b with
  | [], [] => true
  | x :: a', y :: b' => Ascii.eqb x y && str_eqb a' b'
  | _, _ => false
  end.

(** ** Exceptions *)

Inductive error :=
  | Error (msg : str)
  | SyntaxError (pattern : str)
  | HostError (msg : str).

Inductive result (A : Type) :=
  | Ok (a : A)
  | Throw (e : error).

Arguments Ok {A} a.
Arguments Throw {A} e.

Definition bind {A B} (r : result A) (f : A -> result B) : result B :=
  match r with
  | Ok a => f a
  | Throw e => Throw e
  end.

Notation "x <- r ;; k" := (bind r (fun x => k))
  (at level 61, r at next level, right associativity).

(** [Array.prototype.filter] with a callback that can throw. *)
Fixpoint filterM {A} (f : A -> result bool) (l : list A) : result (list A) :=
  match l with
  | [] => Ok []
  | x :: l' =>
      b <- f x ;;
      r <- filterM f l' ;;
      Ok (if b then x :: r else r)
  end.

(** ** String built-ins *)

Module JSString.

(** [startsWith]: is [m] a prefix of [x]? *)
Fixpoint prefix_b (m x : str) : bool :=
  match m, x with
  | [], _ => true
  | c :: m', d :: x' => Ascii.eqb c d && prefix_b m' x'
  | _ :: _, [] => false
  end.

(** [indexOf], returning the text before and after the first occurrence
    of [m] rather than its position. *)
Fixpoint find_split (m x : str) : option (str * str) :=
  if prefix_b m x then Some ([], skipn (length m) x)
  else match x with
       | [] => None
       | c :: x' =>
           match find_split m x' with
           | Some (p, s) => Some (c :: p, s)
           | None => None
           end
       end.

Definition endsWith (x suffix : str) : bool :=
  prefix_b (rev suffix) (rev x).

(** GetSubstitution for a string pattern (no captures): [$$], [$&],
    [$`] and [$'] are expanded, any other [$] stands for itself. *)
Fixpoint GetSubstitution (matched preceding following tmpl : str) : str :=
  match tmpl with
  | [] => []
  | c :: r =>
      if Ascii.eqb c "$"%char then
        match r with
        | [] => [c]
        | d :: r' =>
            if Ascii.eqb d "$"%char then
              "$"%char :: GetSubstitution matched preceding following r'
            else if Ascii.eqb d "&"%char then
              matched ++ GetSubstitution matched preceding following r'
            else if Ascii.eqb d "`"%char then
              preceding ++ GetSubstitution matched preceding following r'
            else if Ascii.eqb d "'"%char then
              following ++ GetSubstitution matched preceding following r'
            else c :: GetSubstitution matched preceding following r
        end
      else c :: GetSubstitution matched preceding following r
  end.

(** [x.replace(m, tmpl)] with a string pattern: only the first
    occurrence is replaced. *)
Definition replace (m tmpl x : str) : str :=
  match find_split m x with
  | None => x
  | Some (p, s) => p ++ GetSubstitution m p s tmpl ++ s
  end.

(** [Array.prototype.join]. *)
Fixpoint join (sep : str) (l : list str) : str :=
  match l with
  | [] => []
  | [x] => x
  | x :: l' => x ++ sep ++ join sep l'
  end.

End JSString.

(** ** Character classes of the language *)

Definition char_le (a b : ascii) : bool := nat_of_ascii a <=? nat_of_ascii b.

Definition in_range (lo hi c : ascii) : bool := char_le lo c && char_le c hi.

Definition is_digit (c : ascii) : bool := in_range "0" "9" c.

Definition is_letter (c : ascii) : bool :=
  in_range "a" "z" c || in_range "A" "Z" c.

Definition is_word (c : ascii) : bool :=
  is_letter c || is_digit c || Ascii.eqb c "_".

(** White space and line terminators among the code units 0..255: what
    [\s] matches. *)
Definition white_space : list ascii :=
  map ascii_of_nat [9; 10; 11; 12; 13; 32; 160].

Definition is_space (c : ascii) : bool := existsb (Ascii.eqb c) white_space.

Definition is_line_terminator (c : ascii) : bool :=
  existsb (Ascii.eqb c) (map ascii_of_nat [10; 13]).

(** ** Regular expressions

    [new RegExp(pattern)], [exec] and [test] without flags, for the part of
    the pattern language the plugin can produce and a margin around it:
    characters, identity and class escapes, [.], [^], [$], classes with
    ranges, groups (capturing, non-capturing, named), alternation and the
    quantifiers, greedy or lazy. Back-references, look-around, [\b] and the
    escapes of letters and digits other than [\s \S \d \D \w \W] and
    [\t \n \v \f \r] are not covered: such a pattern is refused the way a
    malformed one is. *)

Module RegExp.

Inductive citem :=
  | CChar (c : ascii)
  | CRange (lo hi : ascii)
  | CSpace (neg : bool)
  | CDigit (neg : bool)
  | CWord (neg : bool).

Inductive gkind :=
  | Capture
  | NonCapture
  | Named (name : str).

Inductive regex :=
  | REmpty
  | RChar (c : ascii)
  | RAny
  | RClass (neg : bool) (items : list citem)
  | RBol
  | REol
  | RSeq (a b : regex)
  | RAlt (a b : regex)
  | RGroup (k : gkind) (r : regex)
  | RRepeat (min : nat) (max : option nat) (greedy : bool) (r : regex).

(** *** The parser: one pass over the pattern, with a stack of open groups *)

Inductive mode :=
  | MNormal
  | MEscape
  | MGroupOpen
  | MGroupQ
  | MGroupName (acc : str)
  | MClassOpen
  | MClass (neg : bool) (items : list citem) (dash : bool)
  | MClassEscape (neg : bool) (items : list citem) (dash : bool)
  | MBraceMin (n : option nat)
  | MBraceMax (min : nat) (n : option nat).

Record frame := mkFrame {
  fr_kind : gkind;
  fr_alts : list regex;
  fr_seq : list regex
}.

Record pstate := mkPState {
  p_mode : mode;
  p_alts : list regex;   (* finished alternatives of this level, last first *)
  p_seq : list regex;    (* terms of the current alternative, last first *)
  p_stack : list frame;  (* the enclosing groups *)
  p_quant : bool;        (* the last term can take a quantifier *)
  p_lazy : bool          (* the last character was a quantifier *)
}.

Definition p_init : pstate := mkPState MNormal [] [] [] false false.

Definition mk_seq (l : list regex) : regex := fold_right RSeq REmpty l.

Fixpoint mk_alt (l : list regex) : regex :=
  match l with
  | [] => REmpty
  | [a] => a
  | a :: l' => RAlt a (mk_alt l')
  end.

Definition level_regex (alts seq : list regex) : regex :=
  mk_alt (rev (mk_seq (rev seq) :: alts)).

Definition push_atom (a : regex) (quantifiable : bool) (st : pstate) : pstate :=
  mkPState MNormal (p_alts st) (a :: p_seq st) (p_stack st) quantifiable false.

Definition open_group (k : gkind) (st : pstate) : pstate :=
  mkPState MNormal [] [] (mkFrame k (p_alts st) (p_seq st) :: p_stack st)
           false false.

Definition close_group (st : pstate) : option pstate :=
  match p_stack st with
  | [] => None
  | fr :: stack =>
      Some (mkPState MNormal (fr_alts fr)
              (RGroup (fr_kind fr) (level_regex (p_alts st) (p_seq st))
                 :: fr_seq fr)
              stack true false)
  end.

Definition quantify (min : nat) (max : option nat) (st : pstate)
  : option pstate :=
  match p_seq st with
  | t :: seq =>
      if p_quant st then
        Some (mkPState MNormal (p_alts st) (RRepeat min max true t :: seq)
                (p_stack st) false true)
      else None
  | [] => None
  end.

Definition make_lazy (st : pstate) : option pstate :=
  match p_seq st with
  | RRepeat min max _ t :: seq =>
      Some (mkPState MNormal (p_alts st) (RRepeat min max false t :: seq)
              (p_stack st) false false)
  | _ => None
  end.

Definition set_mode (m : mode) (st : pstate) : pstate :=
  mkPState m (p_alts st) (p_seq st) (p_stack st) (p_quant st) (p_lazy st).

Definition control_escape (c : ascii) : option ascii :=
  if Ascii.eqb c "t" then Some (ascii_of_nat 9)
  else if Ascii.eqb c "n" then Some (ascii_of_nat 10)
  else if Ascii.eqb c "v" then Some (ascii_of_nat 11)
  else if Ascii.eqb c "f" then Some (ascii_of_nat 12)
  else if Ascii.eqb c "r" then Some (ascii_of_nat 13)
  else None.

Definition class_escape (c : ascii) : option citem :=
  if Ascii.eqb c "s" then Some (CSpace false)
  else if Ascii.eqb c "S" then Some (CSpace true)
  else if Ascii.eqb c "d" then Some (CDigit false)
  else if Ascii.eqb c "D" then Some (CDigit true)
  else if Ascii.eqb c "w" then Some (CWord false)
  else if Ascii.eqb c "W" then Some (CWord true)
  else None.

(** The character after a backslash, outside a class. *)
Definition step_escape (st : pstate) (c : ascii) : option pstate :=
  match class_escape c with
  | Some it => Some (push_atom (RClass false [it]) true st)
  | None =>
      match control_escape c with
      | Some d => Some (push_atom (RChar d) true st)
      | None =>
          if is_word c then None
          else Some (push_atom (RChar c) true st)
      end
  end.

Definition step_normal (st : pstate) (c : ascii) : option pstate :=
  if Ascii.eqb c "\" then Some (set_mode MEscape st)
  else if Ascii.eqb c "(" then Some (set_mode MGroupOpen st)
  else if Ascii.eqb c ")" then close_group st
  else if Ascii.eqb c "[" then Some (set_mode MClassOpen st)
  else if Ascii.eqb c "|" then
    Some (mkPState MNormal (mk_seq (rev (p_seq st)) :: p_alts st) []
            (p_stack st) false false)
  else if Ascii.eqb c "*" then quantify 0 None st
  else if Ascii.eqb c "+" then quantify 1 None st
  else if Ascii.eqb c "?" then
    if p_lazy st then make_lazy st else quantify 0 (Some 1) st
  else if Ascii.eqb c "{" then
    if p_quant st then Some (set_mode (MBraceMin None) st) else None
  else if Ascii.eqb c "." then Some (push_atom RAny true st)
  else if Ascii.eqb c "^" then Some (push_atom RBol false st)
  else if Ascii.eqb c "$" then Some (push_atom REol false st)
  else Some (push_atom (RChar c) true st).

(** A character of a class (not [\], not the closing bracket). *)
Definition class_add (neg : bool) (items : list citem) (dash : bool)
  (c : ascii) : option mode :=
  if dash then
    match items with
    | CChar lo :: items' =>
        if char_le lo c then Some (MClass neg (CRange lo c :: items') false)
        else None
    | _ => Some (MClass neg (CChar c :: CChar "-" :: items) false)
    end
  else if Ascii.eqb c "-" then
    match items with
    | CChar _ :: _ => Some (MClass neg items true)
    | _ => Some (MClass neg (CChar c :: items) false)
    end
  else Some (MClass neg (CChar c :: items) false).

Definition flush_dash (items : list citem) (dash : bool) : list citem :=
  if dash then CChar "-" :: items else items.

Definition step_class (neg : bool) (items : list citem) (dash : bool)
  (st : pstate) (c : ascii) : option pstate :=
  if Ascii.eqb c "]" then
    Some (push_atom (RClass neg (rev (flush_dash items dash))) true st)
  else if Ascii.eqb c "\" then Some (set_mode (MClassEscape neg items dash) st)
  else option_map (fun m => set_mode m st) (class_add neg items dash c).

Definition step_class_escape (neg : bool) (items : list citem) (dash : bool)
  (st : pstate) (c : ascii) : option pstate :=
  match class_escape c with
  | Some it =>
      Some (set_mode (MClass neg (it :: flush_dash items dash) false) st)
  | None =>
      match control_escape c with
      | Some d => option_map (fun m => set_mode m st)
                    (class_add neg items dash d)
      | None =>
          if is_word c then None
          else if Ascii.eqb c "-" then
            Some (set_mode
                    (MClass neg (CChar c :: flush_dash items dash) false) st)
          else option_map (fun m => set_mode m st)
                 (class_add neg items dash c)
      end
  end.

Definition digit_value (c : ascii) : nat := nat_of_ascii c - 48.

Definition add_digit (n : option nat) (c : ascii) : option nat :=
  match n with
  | None => Some (digit_value c)
  | Some k => Some (10 * k + digit_value c)
  end.

Definition step (st : pstate) (c : ascii) : option pstate :=
  match p_mode st with
  | MNormal => step_normal st c
  | MEscape => step_escape st c
  | MGroupOpen =>
      if Ascii.eqb c "?" then Some (set_mode MGroupQ st)
      else step_normal (open_group Capture st) c
  | MGroupQ =>
      if Ascii.eqb c ":" then Some (open_group NonCapture st)
      else if Ascii.eqb c "<" then Some (set_mode (MGroupName []) st)
      else None
  | MGroupName acc =>
      if Ascii.eqb c ">" then
        match acc with
        | [] => None
        | _ :: _ => Some (open_group (Named (rev acc)) st)
        end
      else if is_word c || Ascii.eqb c "$" then
        match acc with
        | [] => if is_digit c then None
                else Some (set_mode (MGroupName [c]) st)
        | _ :: _ => Some (set_mode (MGroupName (c :: acc)) st)
        end
      else None
  | MClassOpen =>
      if Ascii.eqb c "^" then Some (set_mode (MClass true [] false) st)
      else step_class false [] false st c
  | MClass neg items dash => step_class neg items dash st c
  | MClassEscape neg items dash => step_class_escape neg items dash st c
  | MBraceMin n =>
      if is_digit c then Some (set_mode (MBraceMin (add_digit n c)) st)
      else match n with
           | None => None
           | Some k =>
               if Ascii.eqb c "}" then quantify k (Some k) st
               else if Ascii.eqb c "," then Some (set_mode (MBraceMax k None) st)
               else None
           end
  | MBraceMax min n =>
      if is_digit c then Some (set_mode (MBraceMax min (add_digit n c)) st)
      else if Ascii.eqb c "}" then
        match n with
        | None => quantify min None st
        | Some k => if min <=? k then quantify min (Some k) st else None
        end
      else None
  end.

Fixpoint run (st : pstate) (s : str) : option pstate :=
  match s with
  | [] => Some st
  | c :: s' =>
      match step st c with
      | Some st' => run st' s'
      | None => None
      end
  end.

Definition finish (st : pstate) : option regex :=
  match p_mode st, p_stack st with
  | MNormal, [] => Some (level_regex (p_alts st) (p_seq st))
  | _, _ => None
  end.

Definition parse (pattern : str) : option regex :=
  match run p_init pattern with
  | Some st => finish st
  | None => None
  end.

(** The names of the named groups, in the order of the pattern. *)
Fixpoint names (r : regex) : list str :=
  match r with
  | RSeq a b | RAlt a b => names a ++ names b
  | RGroup (Named n) r' => n :: names r'
  | RGroup _ r' => names r'
  | RRepeat _ _ _ r' => names r'
  | _ => []
  end.

Fixpoint mem (x : str) (l : list str) : bool :=
  match l with
  | [] => false
  | y :: l' => str_eqb x y || mem x l'
  end.

Fixpoint distinct (l : list str) : bool :=
  match l with
  | [] => true
  | x :: l' => negb (mem x l') && distinct l'
  end.

(** [new RegExp(pattern)]: a syntax error is thrown for a pattern that does
    not parse or that names two groups alike. *)
Definition create (pattern : str) : result regex :=
  match parse pattern with
  | Some r => if distinct (names r) then Ok r else Throw (SyntaxError pattern)
  | None => Throw (SyntaxError pattern)
  end.

(** *** The matcher: backtracking, in continuation-passing style *)

Record mstate := mkMState {
  m_pos : nat;                 (* index of the next character *)
  m_rest : str;                (* the input from there on *)
  m_caps : list (str * str)    (* the named captures *)
}.

Definition citem_match (it : citem) (c : ascii) : bool :=
  match it with
  | CChar d => Ascii.eqb c d
  | CRange lo hi => in_range lo hi c
  | CSpace neg => xorb neg (is_space c)
  | CDigit neg => xorb neg (is_digit c)
  | CWord neg => xorb neg (is_word c)
  end.

Definition class_match (neg : bool) (items : list citem) (c : ascii) : bool :=
  xorb neg (existsb (fun it => citem_match it c) items).

Definition eat (p : ascii -> bool) (k : mstate -> option mstate)
  (s : mstate) : option mstate :=
  match m_rest s with
  | c :: rest => if p c then k (mkMState (S (m_pos s)) rest (m_caps s)) else None
  | [] => None
  end.

Fixpoint set_cap (n v : str) (caps : list (str * str)) : list (str * str) :=
  match caps with
  | [] => [(n, v)]
  | (n', v') :: caps' =>
      if str_eqb n n' then (n, v) :: caps' else (n', v') :: set_cap n v caps'
  end.

Definition clear_caps (ns : list str) (caps : list (str * str))
  : list (str * str) :=
  filter (fun nv => negb (mem (fst nv) ns)) caps.

Definition close (g : gkind) (s0 s1 : mstate) : mstate :=
  match g with
  | Named n =>
      mkMState (m_pos s1) (m_rest s1)
        (set_cap n (firstn (m_pos s1 - m_pos s0) (m_rest s0)) (m_caps s1))
  | _ => s1
  end.

Fixpoint rmatch (r : regex) (k : mstate -> option mstate) (s : mstate)
  {struct r} : option mstate :=
  match r with
  | REmpty => k s
  | RChar c => eat (Ascii.eqb c) k s
  | RAny => eat (fun c => negb (is_line_terminator c)) k s
  | RClass neg items => eat (class_match neg items) k s
  | RBol => if m_pos s =? 0 then k s else None
  | REol => match m_rest s with [] => k s | _ :: _ => None end
  | RSeq a b => rmatch a (rmatch b k) s
  | RAlt a b =>
      match rmatch a k s with
      | Some z => Some z
      | None => rmatch b k s
      end
  | RGroup g r' => rmatch r' (fun s' => k (close g s s')) s
  | RRepeat min max greedy r' =>
      (fix repeat (fuel min : nat) (max : option nat) (s : mstate)
         : option mstate :=
         match fuel with
         | 0 => None
         | S fuel' =>
             match max with
             | Some 0 => k s
             | _ =>
                 let d := fun s' =>
                   if (min =? 0) && (m_pos s' =? m_pos s) then None
                   else repeat fuel' (pred min) (option_map pred max) s' in
                 let sc := mkMState (m_pos s) (m_rest s)
                             (clear_caps (names r') (m_caps s)) in
                 if 0 <? min then rmatch r' d sc
                 else if greedy then
                   match rmatch r' d sc with
                   | Some z => Some z
                   | None => k s
                   end
                 else
                   match k s with
                   | Some z => Some z
                   | None => rmatch r' d sc
                   end
             end
         end) (min + length (m_rest s) + 1) min max s
  end.

Record match_result := mkMatch {
  index : nat;
  matched : str;
  groups : list (str * str)
}.

Fixpoint exec_from (re : regex) (pos : nat) (rest : str)
  : option match_result :=
  match rmatch re Some (mkMState pos rest []) with
  | Some s => Some (mkMatch pos (firstn (m_pos s - pos) rest) (m_caps s))
  | None =>
      match rest with
      | [] => None
      | _ :: rest' => exec_from re (S pos) rest'
      end
  end.

(** [re.exec(s)]: the leftmost match, [None] for [null]. *)
Definition exec (re : regex) (s : str) : option match_result :=
  exec_from re 0 s.

Definition test (re : regex) (s : str) : bool :=
  match exec re s with Some _ => true | None => false end.

Fixpoint lookup (n : str) (caps : list (str * str)) : option str :=
  match caps with
  | [] => None
  | (n', v) :: caps' => if str_eqb n n' then Some v else lookup n caps'
  end.

(** [m?.groups?.[n]] *)
Definition group (m : option match_result) (n : str) : option str :=
  match m with
  | Some r => lookup n (groups r)
  | None => None
  end.

End RegExp.

(** ** The [path] module of the host

    The plugin calls [path.join], [path.normalize], [path.relative],
    [path.dirname], [path.parse] and reads [path.sep]; what they return
    depends on the platform, so the plugin is written over this interface. *)

Record ParsedPath := mkParsedPath {
  root : str;
  dir : str;
  base : str;
  ext : str;
  name : str
}.

Class PathModule := {
  sep : ascii;
  join : list str -> str;
  normalize : str -> str;
  relative : str -> str -> str;
  dirname : str -> str;
  parse : str -> ParsedPath
}.

(** *** The POSIX implementation, for a working directory [cwd] *)

Module Posix.

Definition slash : ascii := "/".

Definition is_slash (c : ascii) : bool := Ascii.eqb c slash.

(** [s.split('/')] *)
Fixpoint split (s : str) : list str :=
  match s with
  | [] => [[]]
  | c :: s' =>
      if is_slash c then [] :: split s'
      else match split s' with
           | seg :: segs => (c :: seg) :: segs
           | [] => [[c]]
           end
  end.

Definition dotdot : str := lit "..".

(** normalizeString: the segments of a path with [.] and empty segments
    dropped and [..] resolved; [acc] holds the result so far, last segment
    first. *)
Fixpoint normalize_segments (allowAboveRoot : bool) (acc : list str)
  (segs : list str) : list str :=
  match segs with
  | [] => rev acc
  | seg :: segs' =>
      if str_eqb seg [] || str_eqb seg (lit ".") then
        normalize_segments allowAboveRoot acc segs'
      else if str_eqb seg dotdot then
        match acc with
        | last :: acc' =>
            if str_eqb last dotdot then
              normalize_segments allowAboveRoot
                (if allowAboveRoot then dotdot :: acc else acc) segs'
            else normalize_segments allowAboveRoot acc' segs'
        | [] =>
            normalize_segments allowAboveRoot
              (if allowAboveRoot then [dotdot] else []) segs'
        end
      else normalize_segments allowAboveRoot (seg :: acc) segs'
  end.

Definition normalizeString (path : str) (allowAboveRoot : bool) : str :=
  JSString.join [slash] (normalize_segments allowAboveRoot [] (split path)).

Definition isAbsolute (path : str) : bool :=
  match path with
  | c :: _ => is_slash c
  | [] => false
  end.

Definition normalize (path : str) : str :=
  match path with
  | [] => lit "."
  | _ :: _ =>
      let trailingSeparator := JSString.endsWith path [slash] in
      let p := normalizeString path (negb (isAbsolute path)) in
      match p with
      | [] =>
          if isAbsolute path then [slash]
          else if trailingSeparator then lit "./" else lit "."
      | _ :: _ =>
          let p' := if trailingSeparator then p ++ [slash] else p in
          if isAbsolute path then slash :: p' else p'
      end
  end.

Definition join (paths : list str) : str :=
  match filter truthy paths with
  | [] => lit "."
  | args => normalize (JSString.join [slash] args)
  end.

(** [path.resolve(p)] as its list of segments below the root. *)
Definition resolve_segments (cwd p : str) : list str :=
  normalize_segments false []
    (split (if isAbsolute p then p else cwd ++ [slash] ++ p)).

Fixpoint drop_common (a b : list str) : list str * list str :=
  match a, b with
  | x :: a', y :: b' => if str_eqb x y then drop_common a' b' else (a, b)
  | _, _ => (a, b)
  end.

Definition relative (cwd from to : str) : str :=
  if str_eqb from to then []
  else
    let (up, down) :=
      drop_common (resolve_segments cwd from) (resolve_segments cwd to) in
    JSString.join [slash] (map (fun _ => dotdot) up ++ down).

Fixpoint drop_slashes (s : str) : str :=
  match s with
  | c :: s' => if is_slash c then drop_slashes s' else s
  | [] => []
  end.

(** The leading characters of [s] up to the first [c], and what follows
    from that [c] on. *)
Fixpoint span_until (c : ascii) (s : str) : str * str :=
  match s with
  | [] => ([], [])
  | d :: s' =>
      if Ascii.eqb d c then ([], s)
      else let (a, b) := span_until c s' in (d :: a, b)
  end.

Definition dirname (path : str) : str :=
  match path with
  | [] => lit "."
  | c :: body =>
      (* read from the end: trailing slashes, the last segment, a slash *)
      let (_, before) := span_until slash (drop_slashes (rev body)) in
      match before with
      | [] => if is_slash c then [slash] else lit "."
      | _ :: before' =>
          match c :: rev before' with
          | [d] => if is_slash d then lit "//" else [d]
          | r => r
          end
      end
  end.

Definition parse (path : str) : ParsedPath :=
  match path with
  | [] => mkParsedPath [] [] [] [] []
  | c :: rest =>
      let abs := is_slash c in
      let body := if abs then rest else path in
      let rt := if abs then [slash] else [] in
      let (rbase, before) := span_until slash (drop_slashes (rev body)) in
      let bs := rev rbase in
      let found := truthy before in
      let d :=
        match before with
        | [] => rt
        | _ :: before' => rt ++ rev before'
        end in
      let (rext, rpre) := span_until "." rbase in
      match rpre with
      | [] => mkParsedPath rt d bs [] bs
      | _ :: rname =>
          let nm := rev rname in
          let noext :=
            negb (truthy nm)
            || (str_eqb nm (lit ".") && negb (truthy rext)
                && (found || negb abs)) in
          if noext then mkParsedPath rt d bs [] bs
          else mkParsedPath rt d bs ("."%char :: rev rext) nm
      end
  end.

End Posix.

Definition posix (cwd : str) : PathModule := {|
  sep := Posix.slash;
  join := Posix.join;
  normalize := Posix.normalize;
  relative := Posix.relative cwd;
  dirname := Posix.dirname;
  parse := Posix.parse
|}.

(** ** [Map], as far as the plugin uses it: keys in insertion order, and
    [set] on a key that is present replaces the value where it stands *)

Module JSMap.

Definition t (V : Type) := list (str * V).

Fixpoint set {V} (k : str) (v : V) (m : t V) : t V :=
  match m with
  | [] => [(k, v)]
  | (k', v') :: m' =>
      if str_eqb k k' then (k, v) :: m' else (k', v') :: set k v m'
  end.

Definition keys {V} (m : t V) : list str := map fst m.

Definition values {V} (m : t V) : list V := map snd m.

End JSMap.

(** ** The data of a build *)

(** An entry of [metafile.outputs]; only the fields the plugin reads. *)
Record Output := mkOutput {
  entryPoint : option str;
  cssBundle : option str
}.

(** [metafile.outputs] in the order of [Object.entries]. *)
Record Metafile := mkMetafile {
  outputs : list (str * Output)
}.

(** [{ path: outputData[0], ...outputData[1] }] *)
Record Asset := mkAsset {
  path : str;
  fields : Output
}.

Definition flatten (outputData : str * Output) : Asset :=
  mkAsset (fst outputData) (snd outputData).

(** [metafile?.outputs || {}] *)
Definition outputs_of (metafile : option Metafile) : list (str * Output) :=
  match metafile with
  | Some m => outputs m
  | None => []
  end.

Inductive ScriptLoading := blocking | defer | module.

(** The fields of an HTML file configuration that the plugin reads. The
    two fields that [htmlPlugin] gives a default keep apart a key that is
    absent ([None]) and a key that is present with the value [undefined]
    ([Some None]): [Object.assign] treats them differently. *)
Record HtmlFileConfiguration := mkHtmlFileConfiguration {
  filename : str;
  entryPoints : list str;
  htmlTemplate : option str;
  define : option (list (str * str));
  scriptLoading : option ScriptLoading;
  findRelatedCssFiles : option (option bool);
  findRelatedOutputFiles : option (option bool)
}.

Record Configuration := mkConfiguration {
  files : list HtmlFileConfiguration
}.

(** [build.initialOptions] *)
Record BuildOptions := mkBuildOptions {
  metafile : bool;
  outdir : option str;
  publicPath : option str;
  entryNames : option str
}.

(** The truth value of such a field when it is read. *)
Definition flag (b : option (option bool)) : bool :=
  match b with Some (Some true) => true | _ => false end.

Definition defaultHtmlTemplate : str :=
  [ascii_of_nat 10] ++ lit "<!DOCTYPE html>" ++
  [ascii_of_nat 10] ++ lit "<html>" ++
  [ascii_of_nat 10] ++ lit "  <head>" ++
  [ascii_of_nat 10] ++ lit "    <meta charset=" ++ [dquote] ++ lit "utf-8"
    ++ [dquote] ++ lit " />" ++
  [ascii_of_nat 10] ++ lit "  </head>" ++
  [ascii_of_nat 10] ++ lit "  <body>" ++
  [ascii_of_nat 10] ++ lit "  </body>" ++
  [ascii_of_nat 10] ++ lit "</html>" ++
  [ascii_of_nat 10].

Module REGEXES.
Definition DIR_REGEX : str := lit "(?<dir>\S+\/?)".
Definition HASH_REGEX : str := lit "(?<hash>[A-Z2-7]{8})".
Definition NAME_REGEX : str := lit "(?<name>[^\s\/]+)".
End REGEXES.

(** The characters of the class [[-[\]{}()*+?.,\\^$|#\s]]. *)
Definition is_special (c : ascii) : bool :=
  existsb (Ascii.eqb c) (lit "-[]{}()*+?.,\^$|#") || is_space c.

(** [text.replace(/[-[\]{}()*+?.,\\^$|#\s]/g, '\\$&')]: every character of
    the class gets a backslash in front. *)
Definition escapeRegExp (text : str) : str :=
  flat_map (fun c => if is_special c then ["\"%char; c] else [c]) text.

(** [entryPoints.includes(e)] *)
Definition includes (l : list str) (e : str) : bool :=
  existsb (str_eqb e) l.

(** An object is truthy. *)
Definition object_truthy (a : Asset) : bool := true.

(** ** The plugin *)

(** [x ?? ''] *)
Definition or_empty (x : option str) : str :=
  match x with Some s => s | None => [] end.

Section Plugin.

Context {P : PathModule}.

(** What the plugin needs from the host besides [path]: the file system
    ([fs.existsSync], [fs.promises.readFile] and its [toString]) and
    [lodash.template], compiled and applied to [{ define }]. *)
Variable existsSync : str -> bool.
Variable readFile : str -> result str.
Variable lodashTemplate : str -> list (str * str) -> result str.

(** [joined.split(path.sep).join(path.posix.sep)] turns every separator
    into a slash. *)
Definition posixJoin (paths : list str) : str :=
  let joined := join paths in
  if Ascii.eqb sep "/" then joined
  else map (fun c => if Ascii.eqb c sep then "/"%char else c) joined.

Definition collectEntrypoints (htmlFileConfiguration : HtmlFileConfiguration)
  (metafile : option Metafile) : list Asset :=
  map flatten
    (filter
       (fun kv =>
          match entryPoint (snd kv) with
          | Some e =>
              if truthy e then includes (entryPoints htmlFileConfiguration) e
              else false
          | None => false
          end)
       (outputs_of metafile)).

Definition findVariablesRegexString (entryNames : str) : str :=
  JSString.replace (lit "\[dir\]") REGEXES.DIR_REGEX
    (JSString.replace (lit "\[name\]") REGEXES.NAME_REGEX
       (JSString.replace (lit "\[hash\]") REGEXES.HASH_REGEX
          (escapeRegExp entryNames))).

Definition findFilesWithSameVariablesRegexString (entryNames : str)
  (name dir : option str) : str :=
  JSString.replace (lit "\[hash\]") REGEXES.HASH_REGEX
    (escapeRegExp
       (JSString.replace (lit "[dir]") (or_empty dir)
          (JSString.replace (lit "[name]") (or_empty name) entryNames))).

Definition findNameRelatedOutputFiles (entrypoint : Asset)
  (metafile : option Metafile) (entryNames : option str)
  : result (list Asset) :=
  let pathOfMatchedOutput := parse (path entrypoint) in
  if truthy_opt entryNames then
    let entryNames := or_empty entryNames in
    let joinedPathOfMatch :=
      posixJoin [dir pathOfMatchedOutput; name pathOfMatchedOutput] in
    findVariablesRegex <-
      RegExp.create (findVariablesRegexString entryNames) ;;
    let match_ := RegExp.exec findVariablesRegex joinedPathOfMatch in
    let name := RegExp.group match_ (lit "name") in
    let dir := RegExp.group match_ (lit "dir") in
    found <-
      filterM
        (fun kv =>
           if truthy entryNames then
             findFilesWithSameVariablesRegex <-
               RegExp.create
                 (findFilesWithSameVariablesRegexString entryNames name dir) ;;
             Ok (RegExp.test findFilesWithSameVariablesRegex (fst kv))
           else Ok false)
        (outputs_of metafile) ;;
    Ok (map flatten found)
  else
    Ok (map flatten
          (filter
             (fun kv =>
                str_eqb (name (parse (fst kv))) (name pathOfMatchedOutput)
                && str_eqb (dir (parse (fst kv))) (dir pathOfMatchedOutput))
             (outputs_of metafile))).

Definition renderTemplate (htmlFileConfiguration : HtmlFileConfiguration)
  : result str :=
  customHtmlTemplate <-
    match htmlTemplate htmlFileConfiguration with
    | Some t => if truthy t && existsSync t then readFile t else Ok t
    | None => Ok []
    end ;;
  let template :=
    if truthy customHtmlTemplate then customHtmlTemplate
    else defaultHtmlTemplate in
  match define htmlFileConfiguration with
  | None => Ok template
  | Some d => lodashTemplate template d
  end.

Definition joinWithPublicPath (publicPath relPath : str) : str :=
  let relPath := normalize relPath in
  let publicPath := if truthy publicPath then publicPath else lit "." in
  let slash := if JSString.endsWith publicPath (lit "/") then [] else lit "/" in
  publicPath ++ slash ++ relPath.

Definition targetPath (outDir : str) (publicPath : option str)
  (htmlFileConfiguration : HtmlFileConfiguration) (filepath : str) : str :=
  if truthy_opt publicPath then
    joinWithPublicPath (or_empty publicPath) (relative outDir filepath)
  else
    let htmlFileDirectory :=
      posixJoin [outDir; filename htmlFileConfiguration] in
    relative (dirname htmlFileDirectory) filepath.

Definition scriptElement (htmlFileConfiguration : HtmlFileConfiguration)
  (ext targetPath : str) : str :=
  if str_eqb ext (lit ".js") then
    match scriptLoading htmlFileConfiguration with
    | Some module =>
        lit "<script src=" ++ [dquote] ++ targetPath ++ [dquote]
          ++ lit " type=" ++ [dquote] ++ lit "module" ++ [dquote]
          ++ lit "></script>"
    | None | Some defer =>
        lit "<script src=" ++ [dquote] ++ targetPath ++ [dquote]
          ++ lit " defer></script>"
    | Some blocking => []
    end
  else [].

Definition linkCssElement (ext targetPath : str) : str :=
  if str_eqb ext (lit ".js") then []
  else if str_eqb ext (lit ".css") then
    lit "<link rel=" ++ [dquote] ++ lit "stylesheet" ++ [dquote]
      ++ lit " href=" ++ [dquote] ++ targetPath ++ [dquote] ++ lit ">"
  else [].

(** The callback of [assets.map]: the two elements of one output file. *)
Definition elementsOf (outDir : str) (publicPath : option str)
  (htmlFileConfiguration : HtmlFileConfiguration) (outputFile : Asset)
  : list str :=
  let filepath := path outputFile in
  let target := targetPath outDir publicPath htmlFileConfiguration filepath in
  let e := ext (parse filepath) in
  [scriptElement htmlFileConfiguration e target; linkCssElement e target].

(** [assets.map(...).flat().join('')] *)
Definition elementsStringToInject (assets : list Asset) (outDir : str)
  (publicPath : option str) (htmlFileConfiguration : HtmlFileConfiguration)
  : str :=
  JSString.join []
    (flat_map (elementsOf outDir publicPath htmlFileConfiguration) assets).

Definition injectFilesToHtmlTemplate (htmlTemplate : str)
  (assets : list Asset) (outDir : str) (publicPath : option str)
  (htmlFileConfiguration : HtmlFileConfiguration) : str :=
  JSString.replace (lit "</title>")
    (lit "</title>"
       ++ elementsStringToInject assets outDir publicPath
            htmlFileConfiguration)
    htmlTemplate.

(** The body of the loop over the collected entry points: the [Map] of the
    outputs related to one of them. *)
Definition relatedOutputFiles (htmlFileConfiguration : HtmlFileConfiguration)
  (metafile : option Metafile) (entryNames : option str) (entrypoint : Asset)
  : result (JSMap.t Asset) :=
  if negb (object_truthy entrypoint) then
    Throw (Error (lit "Found no match for "
                    ++ JSString.join (lit ",")
                         (entryPoints htmlFileConfiguration)))
  else
    let m := JSMap.set (path entrypoint) entrypoint [] in
    let m :=
      if flag (findRelatedCssFiles htmlFileConfiguration) then
        if truthy_opt (cssBundle (fields entrypoint)) then
          let css := or_empty (cssBundle (fields entrypoint)) in
          JSMap.set css (mkAsset css (mkOutput None None)) m
        else m
      else m in
    if flag (findRelatedOutputFiles htmlFileConfiguration) then
      items <- findNameRelatedOutputFiles entrypoint metafile entryNames ;;
      Ok (fold_left (fun m item => JSMap.set (path item) item m) items m)
    else Ok m.

(** The loop over the collected entry points. *)
Fixpoint collectOutputFiles (htmlFileConfiguration : HtmlFileConfiguration)
  (metafile : option Metafile) (entryNames : option str)
  (collectedEntrypoints collectedOutputFiles : list Asset)
  : result (list Asset) :=
  match collectedEntrypoints with
  | [] => Ok collectedOutputFiles
  | entrypoint :: rest =>
      m <- relatedOutputFiles htmlFileConfiguration metafile entryNames
             entrypoint ;;
      collectOutputFiles htmlFileConfiguration metafile entryNames rest
        (collectedOutputFiles ++ JSMap.values m)
  end.

(** One turn of the loop over [configuration.files] up to the write: the
    path of the file and the content handed to [writeFile]. *)
Definition processHtmlFile (options : BuildOptions)
  (metafile : option Metafile) (htmlFileConfiguration : HtmlFileConfiguration)
  : result (str * str) :=
  let collectedEntrypoints :=
    collectEntrypoints htmlFileConfiguration metafile in
  collectedOutputFiles <-
    collectOutputFiles htmlFileConfiguration metafile (entryNames options)
      collectedEntrypoints [] ;;
  htmlTemplate <- renderTemplate htmlFileConfiguration ;;
  match outdir options with
  | None =>
      (* [path.join(undefined, ...)]; [onStart] has excluded it *)
      Throw (HostError (lit "outdir is undefined"))
  | Some outdir =>
      let modifiedHtmlTemplate :=
        injectFilesToHtmlTemplate htmlTemplate collectedOutputFiles outdir
          (publicPath options) htmlFileConfiguration in
      Ok (posixJoin [outdir; filename htmlFileConfiguration],
          modifiedHtmlTemplate)
  end.

Definition onStart (options : BuildOptions) : result unit :=
  if negb (metafile options) then Throw (Error (lit "metafile is not enabled"))
  else if negb (truthy_opt (outdir options)) then
    Throw (Error (lit "outdir must be set"))
  else Ok tt.

End Plugin.

(** [Object.assign({}, { findRelatedOutputFiles: false,
    findRelatedCssFiles: true }, htmlFileConfiguration)]: a key of the
    configuration, also one whose value is [undefined], goes over the
    default. *)
Definition setDefaults (c : HtmlFileConfiguration) : HtmlFileConfiguration :=
  mkHtmlFileConfiguration (filename c) (entryPoints c) (htmlTemplate c)
    (define c) (scriptLoading c)
    (match findRelatedCssFiles c with None => Some (Some true) | v => v end)
    (match findRelatedOutputFiles c with None => Some (Some false) | v => v end).

(** ** The build callbacks

    [onEnd] reads the template and writes the page through the file system
    of the host, in a state [FS] that its operations take and give back:
    [existsSync], [readFile], [mkdir] (with [recursive]), [writeFile] and
    [stat]. A rejected promise is the error beside the state. *)

Section Build.

Context {P : PathModule}.

Variable FS : Type.
Variable existsSync : FS -> str -> bool.
Variable readFile : FS -> str -> result str.
Variable lodashTemplate : str -> list (str * str) -> result str.
Variable mkdir : FS -> str -> FS * option error.
Variable writeFile : FS -> str -> str -> FS * option error.
Variable stat : FS -> str -> result nat.

(** The end of a turn of the loop: [mkdir] of the directory of [out],
    [writeFile], and [stat] for the size that is logged. *)
Definition writeHtmlFile (fs : FS) (out modifiedHtmlTemplate : str)
  : FS * option error :=
  let (fs1, e1) := mkdir fs (dirname out) in
  match e1 with
  | Some e => (fs1, Some e)
  | None =>
      let (fs2, e2) := writeFile fs1 out modifiedHtmlTemplate in
      match e2 with
      | Some e => (fs2, Some e)
      | None =>
          match stat fs2 out with
          | Throw e => (fs2, Some e)
          | Ok _ => (fs2, None)
          end
      end
  end.

(** [onEnd]: the state of the file system at the end of the loop and the
    error that stopped it, if any. *)
Fixpoint onEnd (options : BuildOptions) (metafile : option Metafile)
  (files : list HtmlFileConfiguration) (fs : FS) : FS * option error :=
  match files with
  | [] => (fs, None)
  | htmlFileConfiguration :: rest =>
      match processHtmlFile (existsSync fs) (readFile fs) lodashTemplate
              options metafile htmlFileConfiguration with
      | Throw e => (fs, Some e)
      | Ok (out, modifiedHtmlTemplate) =>
          let (fs', e) := writeHtmlFile fs out modifiedHtmlTemplate in
          match e with
          | Some e => (fs', Some e)
          | None => onEnd options metafile rest fs'
          end
      end
  end.

(** What [setup] registers with the build: the callback of
    [build.onStart] and the callback of [build.onEnd], which gets the
    metafile of the build result. When the host calls them is its
    business. *)
Record Plugin := mkPlugin {
  plugin_name : str;
  plugin_onStart : BuildOptions -> result unit;
  plugin_onEnd : BuildOptions -> option Metafile -> FS -> FS * option error
}.

Definition htmlPlugin (configuration : Configuration) : Plugin :=
  let files := map setDefaults (files configuration) in
  mkPlugin (lit "esbuild-html-plugin") onStart
    (fun options metafile fs => onEnd options metafile files fs).

End Build.

Arguments plugin_name {FS} p.
Arguments plugin_onStart {FS} p options.
Arguments plugin_onEnd {FS} p options metafile fs.

(** ** Builds used as examples *)

Module Scenario.

(** The POSIX [path], with the build running in [/work]. *)
Definition P0 : PathModule := posix (lit "/work").

Definition plain : Output := mkOutput None None.

(** A page with a title, everything else unset. *)
Definition page (entries : list str) (loading : option ScriptLoading)
  : HtmlFileConfiguration :=
  mkHtmlFileConfiguration (lit "index.html") entries
    (Some (lit "<head><title>T</title></head>")) None loading None None.

Definition app_js : Asset := mkAsset (lit "out/app.js") plain.
Definition app_css : Asset := mkAsset (lit "out/app.css") plain.

(** A host without template files and whose template engine fails. *)
Definition no_file (p : str) : bool := false.
Definition unreadable (p : str) : result str :=
  Throw (HostError (lit "ENOENT")).
Definition no_engine (t : str) (d : list (str * str)) : result str :=
  Throw (HostError (lit "template engine called")).

(** A build of [src/app.ts] into [out/]. *)
Definition app_build : Metafile :=
  mkMetafile
    [(lit "out/app.js", mkOutput (Some (lit "src/app.ts")) None)].

Definition options : BuildOptions :=
  mkBuildOptions true (Some (lit "out")) None None.

(** A page whose template holds text that looks like a substitution. *)
Definition raw_text : str := lit "<p><%= define.x %> ${y}</p>".

Definition raw_page : HtmlFileConfiguration :=
  mkHtmlFileConfiguration (lit "index.html") [] (Some raw_text) None None
    None None.

(** The outputs of the pattern-match scenario. *)
Definition hashed_anchor : Asset :=
  mkAsset (lit "assets/app-AB2C3D4E.js") plain.


Definition hashed_build : Metafile :=
  mkMetafile
    [(lit "assets/app-AB2C3D4E.js", plain);
     (lit "assets/app-AB2C3D4E.css", plain);
     (lit "assets/other-ZZ222222.js", plain)].

(** A build whose outputs carry no hash, with one output that the
    pattern left by empty captures finds. *)
Definition plain_anchor : Asset := mkAsset (lit "out/app.js") plain.

Definition plain_build : Metafile :=
  mkMetafile
    [(lit "out/app.js", plain);
     (lit "out/app.css", plain);
     (lit "x/-ABCDEFGH.js", plain)].

(** A build with a script and a style sheet of the same name, both entry
    points of a page that asks for the related outputs. *)
Definition twin_build : Metafile :=
  mkMetafile
    [(lit "out/app.js", mkOutput (Some (lit "src/app.ts")) None);
     (lit "out/app.css", mkOutput (Some (lit "src/app.css")) None)].

Definition twin_page : HtmlFileConfiguration :=
  mkHtmlFileConfiguration (lit "index.html")
    [lit "src/app.ts"; lit "src/app.css"]
    (Some (lit "<head><title>T</title></head>")) None None None
    (Some (Some true)).

(** A page whose template is the empty string. *)
Definition empty_page : HtmlFileConfiguration :=
  mkHtmlFileConfiguration (lit "index.html") [] (Some []) None None None None.

(** A [path] whose separator is the backslash and whose [join] puts it
    between the segments; the other operations are those of POSIX. *)
Definition P_backslash : PathModule := {|
  sep := "\"%char;
  join := JSString.join ["\"%char];
  normalize := Posix.normalize;
  relative := Posix.relative (lit "/work");
  dirname := Posix.dirname;
  parse := Posix.parse
|}.

Definition no_metafile : BuildOptions :=
  mkBuildOptions false None None None.

Definition notes : Asset := mkAsset (lit "out/notes.txt") plain.
Definition app_map : Asset := mkAsset (lit "out/app.js.map") plain.

(** A page with nothing but its name and its entry point. *)
Definition bare_page : HtmlFileConfiguration :=
  mkHtmlFileConfiguration (lit "index.html") [lit "src/app.ts"] None None
    None None None.

(** A file system for the examples: the files with their content, in the
    order in which they were first written. Directories are not stored: a
    path is a directory when a file lies below it. *)
Definition disk := list (str * str).

Fixpoint disk_lookup (fs : disk) (p : str) : option str :=
  match fs with
  | [] => None
  | (q, content) :: fs' =>
      if str_eqb p q then Some content else disk_lookup fs' p
  end.

Definition is_directory (fs : disk) (p : str) : bool :=
  existsb (fun kv => JSString.prefix_b (p ++ lit "/") (fst kv)) fs.

Definition disk_exists (fs : disk) (p : str) : bool :=
  match disk_lookup fs p with
  | Some _ => true
  | None => is_directory fs p
  end.

Definition disk_read (fs : disk) (p : str) : result str :=
  match disk_lookup fs p with
  | Some content => Ok content
  | None =>
      if is_directory fs p then Throw (HostError (lit "EISDIR"))
      else Throw (HostError (lit "ENOENT"))
  end.

Definition disk_mkdir (fs : disk) (d : str) : disk * option error :=
  match disk_lookup fs d with
  | Some _ => (fs, Some (HostError (lit "EEXIST")))
  | None => (fs, None)
  end.

Definition disk_write (fs : disk) (p content : str) : disk * option error :=
  if is_directory fs p then (fs, Some (HostError (lit "EISDIR")))
  else (JSMap.set p content fs, None).

Definition disk_stat (fs : disk) (p : str) : result nat :=
  match disk_lookup fs p with
  | Some content => Ok (length content)
  | None =>
      if is_directory fs p then Ok 0 else Throw (HostError (lit "ENOENT"))
  end.

(** The disk after a build that wrote [out/app.js]. *)
Definition built_disk : disk := [(lit "out/app.js", lit "console.log(1)")].

(** A page whose file name is the empty string. *)
Definition nameless_page : HtmlFileConfiguration :=
  mkHtmlFileConfiguration [] [lit "src/app.ts"] None None None None None.

(** A page that leaves the two search options out, and one that has the
    key [findRelatedCssFiles] with the value [undefined]. *)
Definition bundled : Asset :=
  mkAsset (lit "out/app.js")
    (mkOutput (Some (lit "src/app.ts")) (Some (lit "out/app.css"))).

Definition undefined_css_page : HtmlFileConfiguration :=
  mkHtmlFileConfiguration (lit "index.html") [lit "src/app.ts"] None None
    None (Some None) None.

End Scenario.

(** ** Auxiliary definitions of the proofs *)

(** One of [a] and [b] is a prefix of the other. *)
Fixpoint agree (a b : str) : bool :=
  match a, b with
  | c :: a', d :: b' => Ascii.eqb c d && agree a' b'
  | _, _ => true
  end.

(** No occurrence of [m] can overlap an occurrence of [n]. *)
Definition apart (m n : str) : bool :=
  forallb (fun d => negb (agree (skipn d m) n)) (seq 0 (length m))
  && forallb (fun d => negb (agree m (skipn d n))) (seq 0 (length n))
  && negb (agree m n).

(** The patterns the plugin builds, read as a sequence of items: a
    character that needs no escape, an escaped character, or the group put
    in the place of a placeholder. *)
Inductive placeholder := GHash | GName | GDir.

Definition group_text (g : placeholder) : str :=
  match g with
  | GHash => REGEXES.HASH_REGEX
  | GName => REGEXES.NAME_REGEX
  | GDir => REGEXES.DIR_REGEX
  end.

Definition group_name (g : placeholder) : str :=
  match g with
  | GHash => lit "hash"
  | GName => lit "name"
  | GDir => lit "dir"
  end.

(** The escaped placeholder that [group_text] replaces. *)
Definition needle (g : placeholder) : str :=
  match g with
  | GHash => lit "\[hash\]"
  | GName => lit "\[name\]"
  | GDir => lit "\[dir\]"
  end.

Inductive token :=
  | TPlain (c : ascii)
  | TEsc (c : ascii)
  | TGroup (g : placeholder).

Definition render_tok (t : token) : str :=
  match t with
  | TPlain c => [c]
  | TEsc c => ["\"%char; c]
  | TGroup g => group_text g
  end.

Definition render (ts : list token) : str := flat_map render_tok ts.

Definition tok_ok (t : token) : Prop :=
  match t with
  | TPlain c => is_special c = false
  | TEsc c => is_special c = true
  | TGroup _ => True
  end.

Definition tok_of_char (c : ascii) : token :=
  if is_special c then TEsc c else TPlain c.

Fixpoint groups_of (ts : list token) : list placeholder :=
  match ts with
  | [] => []
  | TGroup g :: ts' => g :: groups_of ts'
  | _ :: ts' => groups_of ts'
  end.

(** What [group_text] parses to. *)
Definition group_regex (g : placeholder) : RegExp.regex :=
  match g with
  | GHash =>
      RegExp.RGroup (RegExp.Named (lit "hash"))
        (RegExp.RSeq
           (RegExp.RRepeat 8 (Some 8) true
              (RegExp.RClass false
                 [RegExp.CRange "A" "Z"; RegExp.CRange "2" "7"]))
           RegExp.REmpty)
  | GName =>
      RegExp.RGroup (RegExp.Named (lit "name"))
        (RegExp.RSeq
           (RegExp.RRepeat 1 None true
              (RegExp.RClass true [RegExp.CSpace false; RegExp.CChar "/"]))
           RegExp.REmpty)
  | GDir =>
      RegExp.RGroup (RegExp.Named (lit "dir"))
        (RegExp.RSeq
           (RegExp.RRepeat 1 None true
              (RegExp.RClass false [RegExp.CSpace true]))
           (RegExp.RSeq
              (RegExp.RRepeat 0 (Some 1) true (RegExp.RChar "/"))
              RegExp.REmpty))
  end.

Definition term_of (t : token) : RegExp.regex :=
  match t with
  | TPlain c | TEsc c => RegExp.RChar c
  | TGroup g => group_regex g
  end.

(** The regular expression of a pattern made of such items. *)
Definition regex_of (ts : list token) : RegExp.regex :=
  RegExp.mk_seq (map term_of ts).

(** The regular expression that matches the text [w] and nothing else. *)
Definition literal (w : str) : RegExp.regex :=
  RegExp.mk_seq (map RegExp.RChar w).

(** The pattern of a template [a[dir]b[name]c[hash]d], as items. *)
Definition template_items (a b c d : str) : list token :=
  map tok_of_char a ++ TGroup GDir ::
  map tok_of_char b ++ TGroup GName ::
  map tok_of_char c ++ TGroup GHash ::
  map tok_of_char d.

(** The placeholder as it is written in a naming template. *)
Definition placeholder_text (g : placeholder) : str :=
  match g with
  | GHash => lit "[hash]"
  | GName => lit "[name]"
  | GDir => lit "[dir]"
  end.

(** The capture that the second pattern puts in the place of a
    placeholder, and the text that stands there in the pattern: the hash
    gets its group again, [name] and [dir] their capture, escaped. *)
Definition capture_of (g : placeholder) (name dir : option str) : str :=
  match g with
  | GHash => []
  | GName => or_empty name
  | GDir => or_empty dir
  end.

Definition substituted (g : placeholder) (name dir : option str) : str :=
  match g with
  | GHash => REGEXES.HASH_REGEX
  | _ => escapeRegExp (capture_of g name dir)
  end.

(** ** Vocabulary of the statements *)

(** [m] occurs in [x]. *)
Definition occurs (m x : str) : Prop :=
  exists p s, x = p ++ m ++ s.

(** [x] is [p ++ m ++ s] and no occurrence of [m] in [x] starts before
    this one. *)
Definition first_occurrence (m x p s : str) : Prop :=
  x = p ++ m ++ s /\
  forall p' s', x = p' ++ m ++ s' -> length p <= length p'.

(** [m] occurs twice in [x], the second time after the end of the first. *)
Definition occurs_twice (m x : str) : Prop :=
  exists p s t, x = p ++ m ++ s ++ m ++ t.

(** [publicPath] ends in a slash. *)
Definition ends_with_slash (publicPath : str) : Prop :=
  exists q, publicPath = q ++ lit "/".

(** The values of a [Map] of assets are stored under their paths. *)
Definition well_keyed (m : JSMap.t Asset) : Prop :=
  Forall (fun kv => path (snd kv) = fst kv) m.

(** [m] is the group of outputs collected for the entry point [e]: no path
    twice, the path of [e] in it, and the style sheet bundle of [e] when
    bundles are followed. *)
Definition group_of {P : PathModule} (c : HtmlFileConfiguration)
  (mf : option Metafile) (entryNames : option str) (e : Asset)
  (m : JSMap.t Asset) : Prop :=
  relatedOutputFiles c mf entryNames e = Ok m /\
  NoDup (map path (JSMap.values m)) /\
  In (path e) (map path (JSMap.values m)) /\
  (flag (findRelatedCssFiles c) = true ->
   forall css, cssBundle (fields e) = Some css -> css <> [] ->
     In css (map path (JSMap.values m))).

(** [m] is a [Map] of assets under their paths whose first key is [k]. *)
Definition anchored (k : str) (m : JSMap.t Asset) : Prop :=
  well_keyed m /\ exists v rest, m = (k, v) :: rest.

(** The [Map] entries the plugin makes for an entry point when it follows
    the style sheet bundle and does not search by name. *)
Definition bundle_group (e : Asset) : list Asset :=
  match cssBundle (fields e) with
  | Some css =>
      if truthy css then
        if str_eqb css (path e) then [mkAsset css (mkOutput None None)]
        else [e; mkAsset css (mkOutput None None)]
      else [e]
  | None => [e]
  end.

(** * Properties *)

(** ** Strings *)

Lemma str_eqb_eq (a b : str) : str_eqb a b = true <-> a = b.
Proof.
  revert b; induction a as [|x a IH]; intros [|y b]; simpl;
    try (split; [discriminate | congruence]).
  - split; reflexivity.
  - rewrite andb_true_iff, Ascii.eqb_eq, IH. split.
    + intros [-> ->]; reflexivity.
    + intros H; injection H; auto.
Qed.

Lemma str_eqb_refl (a : str) : str_eqb a a = true.
Proof. apply str_eqb_eq; reflexivity. Qed.

Lemma join_empty_concat (l : list str) : JSString.join [] l = concat l.
Proof.
  induction l as [|x [|y l] IH]; simpl in *.
  - reflexivity.
  - now rewrite app_nil_r.
  - now rewrite IH.
Qed.

Module StringFacts.
Import JSString.

Lemma prefix_b_cons (c d : ascii) (m x : str) :
  prefix_b (c :: m) (d :: x) = Ascii.eqb c d && prefix_b m x.
Proof. reflexivity. Qed.

Lemma prefix_b_app (m r : str) : prefix_b m (m ++ r) = true.
Proof.
  induction m as [|c m IH]; simpl; [reflexivity|].
  now rewrite Ascii.eqb_refl, IH.
Qed.

Lemma prefix_b_true (m x : str) :
  prefix_b m x = true -> x = m ++ skipn (length m) x.
Proof.
  revert x; induction m as [|c m IH]; intros [|d x]; simpl;
    try reflexivity; try discriminate.
  rewrite andb_true_iff, Ascii.eqb_eq. intros [-> H].
  f_equal. now apply IH.
Qed.

Lemma prefix_b_iff (m x : str) :
  prefix_b m x = true <-> exists r, x = m ++ r.
Proof.
  split.
  - intros H; eexists; now apply prefix_b_true.
  - intros [r ->]; apply prefix_b_app.
Qed.

Lemma skipn_app_exact (m r : str) : skipn (length m) (m ++ r) = r.
Proof. induction m; simpl; auto. Qed.

Lemma find_split_Some (m x p s : str) :
  find_split m x = Some (p, s) -> x = p ++ m ++ s.
Proof.
  revert p; induction x as [|c x IH]; intros p; simpl.
  - destruct (prefix_b m []) eqn:E; [|discriminate].
    intros H; injection H as <- <-.
    now apply prefix_b_true in E.
  - destruct (prefix_b m (c :: x)) eqn:E.
    + intros H; injection H as <- <-.
      now apply prefix_b_true in E.
    + destruct (find_split m x) as [[p0 s0]|]; [|discriminate].
      intros H; injection H as <- <-.
      simpl; f_equal; now apply IH.
Qed.

Lemma find_split_least (m x p s : str) :
  find_split m x = Some (p, s) ->
  forall p' s', x = p' ++ m ++ s' -> length p <= length p'.
Proof.
  revert p; induction x as [|c x IH]; intros p; simpl.
  - destruct (prefix_b m []); [|discriminate].
    intros H; injection H as <- <-. simpl; lia.
  - destruct (prefix_b m (c :: x)) eqn:E.
    + intros H; injection H as <- <-. simpl; lia.
    + destruct (find_split m x) as [[p0 s0]|] eqn:F; [|discriminate].
      intros H; injection H as <- <-. intros [|d p'] s' Hx.
      * simpl in Hx. rewrite Hx, prefix_b_app in E. discriminate.
      * simpl in Hx. injection Hx as _ Hx. simpl.
        specialize (IH p0 eq_refl p' s' Hx). lia.
Qed.

Lemma find_split_first (m x p s : str) :
  find_split m x = Some (p, s) -> first_occurrence m x p s.
Proof.
  intros H; split; [now apply find_split_Some | now apply (find_split_least _ _ _ _ H)].
Qed.

Lemma find_split_eq (m x : str) :
  find_split m x =
  if prefix_b m x then Some ([], skipn (length m) x)
  else match x with
       | [] => None
       | c :: x' =>
           match find_split m x' with
           | Some (p, s) => Some (c :: p, s)
           | None => None
           end
       end.
Proof. destruct x; reflexivity. Qed.

Lemma find_split_here (m r : str) :
  find_split m (m ++ r) = Some ([], r).
Proof.
  now rewrite find_split_eq, prefix_b_app, skipn_app_exact.
Qed.

Lemma find_split_occurs (m x : str) :
  occurs m x -> exists p s, find_split m x = Some (p, s).
Proof.
  intros (p & s & ->). induction p as [|c p IH].
  - simpl. rewrite find_split_here. eauto.
  - simpl. destruct (prefix_b m (c :: p ++ m ++ s)); [eauto|].
    destruct IH as (p0 & s0 & ->). eauto.
Qed.

Lemma find_split_None (m x : str) :
  find_split m x = None <-> ~ occurs m x.
Proof.
  split.
  - intros H Ho. apply find_split_occurs in Ho as (p & s & E). congruence.
  - intros H. destruct (find_split m x) as [[p s]|] eqn:E; [|reflexivity].
    exfalso; apply H. exists p, s. now apply find_split_Some.
Qed.

Lemma GetSubstitution_literal (m p s tmpl : str) :
  ~ In "$"%char tmpl -> GetSubstitution m p s tmpl = tmpl.
Proof.
  induction tmpl as [|c r IH]; simpl; [reflexivity|].
  intros H. destruct (Ascii.eqb_spec c "$") as [->|_].
  - exfalso; apply H; now left.
  - f_equal; apply IH; intros Hin; apply H; now right.
Qed.

Lemma replace_literal (m tmpl x p s : str) :
  ~ In "$"%char tmpl ->
  find_split m x = Some (p, s) ->
  replace m tmpl x = p ++ tmpl ++ s.
Proof.
  intros Hd Hf. unfold replace. rewrite Hf.
  now rewrite GetSubstitution_literal.
Qed.

Lemma replace_absent (m tmpl x : str) :
  ~ occurs m x -> replace m tmpl x = x.
Proof.
  intros H. apply find_split_None in H. unfold replace. now rewrite H.
Qed.

End StringFacts.

(** ** Injection *)

Ltac not_in_literal :=
  let H := fresh "H" in
  vm_compute; intros H;
  repeat (destruct H as [H|H]; [discriminate H|]); exact H.

Section Injection.

Context {P : PathModule}.

Lemma elementsStringToInject_concat (assets : list Asset) (outDir : str)
  (publicPath : option str) (c : HtmlFileConfiguration) :
  elementsStringToInject assets outDir publicPath c =
  concat (map (fun a => concat (elementsOf outDir publicPath c a)) assets).
Proof.
  unfold elementsStringToInject. rewrite join_empty_concat.
  induction assets as [|a l IH]; [reflexivity|].
  cbn [flat_map map concat]. rewrite concat_app. now rewrite IH.
Qed.

(** C1, as amended: when the template contains [</title>] and the tags
    hold no [$], the result is the template with the tags of the assets,
    concatenated in the order of the assets, put right after the first
    [</title>]; the text before and after stays as it is. *)
Theorem inject_after_first_title (template : str) (assets : list Asset)
  (outDir : str) (publicPath : option str) (c : HtmlFileConfiguration) :
  occurs (lit "</title>") template ->
  assets <> [] ->
  ~ In "$"%char (elementsStringToInject assets outDir publicPath c) ->
  exists p s,
    first_occurrence (lit "</title>") template p s /\
    injectFilesToHtmlTemplate template assets outDir publicPath c =
      p ++ lit "</title>"
        ++ concat (map (fun a => concat (elementsOf outDir publicPath c a))
                     assets)
        ++ s.
Proof.
  intros Ho _ Hd.
  destruct (StringFacts.find_split_occurs _ _ Ho) as (p & s & Hf).
  exists p, s. split; [now apply StringFacts.find_split_first|].
  unfold injectFilesToHtmlTemplate.
  rewrite (StringFacts.replace_literal _ _ _ p s); [| |exact Hf].
  - rewrite elementsStringToInject_concat. now rewrite <- !app_assoc.
  - intros Hin. apply in_app_or in Hin as [Hin|Hin]; [|now apply Hd].
    revert Hin. not_in_literal.
Qed.

(** C6: a template without [</title>] comes back as it is, whatever the
    assets. *)
Theorem inject_without_title (template : str) (assets : list Asset)
  (outDir : str) (publicPath : option str) (c : HtmlFileConfiguration) :
  ~ occurs (lit "</title>") template ->
  injectFilesToHtmlTemplate template assets outDir publicPath c = template.
Proof.
  intros H. unfold injectFilesToHtmlTemplate.
  now apply StringFacts.replace_absent.
Qed.

End Injection.

(** The amended C1 on a page with a script and a style sheet. *)
Lemma inject_after_first_title_witness :
  exists p s,
    first_occurrence (lit "</title>") (lit "<head><title>T</title></head>")
      p s /\
    @injectFilesToHtmlTemplate Scenario.P0
      (lit "<head><title>T</title></head>")
      [Scenario.app_js; Scenario.app_css] (lit "out") None
      (Scenario.page [] None) =
      p ++ lit "</title>"
        ++ concat
             (map (fun a =>
                     concat (@elementsOf Scenario.P0 (lit "out") None
                               (Scenario.page [] None) a))
                [Scenario.app_js; Scenario.app_css])
        ++ s.
Proof.
  apply (@inject_after_first_title Scenario.P0).
  - exists (lit "<head><title>T"), (lit "</head>"). reflexivity.
  - discriminate.
  - not_in_literal.
Defined.

(** C1 as the spec has it fails: the tags come after [</title>], not
    before it. *)
Lemma inject_before_title_counterexample :
  first_occurrence (lit "</title>") (lit "<head><title>T</title></head>")
    (lit "<head><title>T") (lit "</head>") /\
  [Scenario.app_js] <> [] /\
  @injectFilesToHtmlTemplate Scenario.P0
    (lit "<head><title>T</title></head>") [Scenario.app_js] (lit "out") None
    (Scenario.page [] None) =
    lit "<head><title>T</title><script src=" ++ [dquote] ++ lit "app.js"
      ++ [dquote] ++ lit " defer></script></head>" /\
  @injectFilesToHtmlTemplate Scenario.P0
    (lit "<head><title>T</title></head>") [Scenario.app_js] (lit "out") None
    (Scenario.page [] None) <>
    lit "<head><title>T"
      ++ @elementsStringToInject Scenario.P0 [Scenario.app_js] (lit "out")
           None (Scenario.page [] None)
      ++ lit "</title>" ++ lit "</head>".
Proof.
  split; [apply StringFacts.find_split_first; reflexivity|].
  split; [discriminate|].
  split; [reflexivity|].
  vm_compute. discriminate.
Qed.

(** C6 on the built-in template, which has no title. *)
Lemma inject_without_title_witness :
  @injectFilesToHtmlTemplate Scenario.P0 defaultHtmlTemplate
    [Scenario.app_js; Scenario.app_css] (lit "out") None
    (Scenario.page [] None) = defaultHtmlTemplate.
Proof.
  apply (@inject_without_title Scenario.P0).
  apply StringFacts.find_split_None. reflexivity.
Defined.

(** *** Script tags by loading mode *)

Section ScriptTags.

Context {P : PathModule}.

Lemma scriptElement_module (c : HtmlFileConfiguration) (target : str) :
  scriptLoading c = Some module ->
  scriptElement c (lit ".js") target =
    lit "<script src=" ++ [dquote] ++ target ++ [dquote] ++ lit " type="
      ++ [dquote] ++ lit "module" ++ [dquote] ++ lit "></script>".
Proof. intros H. unfold scriptElement. now rewrite H. Qed.

Lemma scriptElement_defer (c : HtmlFileConfiguration) (target : str) :
  scriptLoading c = None \/ scriptLoading c = Some defer ->
  scriptElement c (lit ".js") target =
    lit "<script src=" ++ [dquote] ++ target ++ [dquote]
      ++ lit " defer></script>".
Proof. intros [H|H]; unfold scriptElement; now rewrite H. Qed.

Lemma elementsOf_blocking (outDir : str) (publicPath : option str)
  (c : HtmlFileConfiguration) (a : Asset) :
  scriptLoading c = Some blocking ->
  ext (parse (path a)) = lit ".js" ->
  elementsOf outDir publicPath c a = [[]; []].
Proof.
  intros H E. unfold elementsOf, scriptElement, linkCssElement.
  now rewrite H, E.
Qed.

End ScriptTags.

(** C2 fails for [blocking]: the output [out/app.js] gets no script tag at
    all, and the page comes back without any. *)
Theorem blocking_emits_no_script_tag :
  ext (@parse Scenario.P0 (path Scenario.app_js)) = lit ".js" /\
  @elementsOf Scenario.P0 (lit "out") None
    (Scenario.page [] (Some blocking)) Scenario.app_js = [[]; []] /\
  @injectFilesToHtmlTemplate Scenario.P0
    (lit "<head><title>T</title></head>") [Scenario.app_js] (lit "out") None
    (Scenario.page [] (Some blocking)) =
    lit "<head><title>T</title></head>".
Proof. repeat split. Qed.

(** ** Entry points that match no output *)

Section Unmatched.

Context {P : PathModule}.
Variable existsSync : str -> bool.
Variable readFile : str -> result str.
Variable lodashTemplate : str -> list (str * str) -> result str.

(** With no matched output the loop body never runs: the page is rendered
    and written without a tag, and nothing is thrown on the way. *)
Lemma processHtmlFile_unmatched (options : BuildOptions)
  (mf : option Metafile) (c : HtmlFileConfiguration) (o : str) :
  collectEntrypoints c mf = [] ->
  outdir options = Some o ->
  processHtmlFile existsSync readFile lodashTemplate options mf c =
    (t <- renderTemplate existsSync readFile lodashTemplate c ;;
     Ok (posixJoin [o; filename c],
         injectFilesToHtmlTemplate t [] o (publicPath options) c)).
Proof.
  intros H Ho. unfold processHtmlFile. rewrite H. simpl. now rewrite Ho.
Qed.

End Unmatched.

(** C3 fails: a page that asks for [src/missing.ts], which no output of the
    build comes from, is written without a tag and no error is raised. *)
Theorem unmatched_entry_point_is_silent :
  @collectEntrypoints
    (Scenario.page [lit "src/missing.ts"] None) (Some Scenario.app_build)
    = [] /\
  plugin_onStart
    (@htmlPlugin Scenario.P0 Scenario.disk Scenario.disk_exists
       Scenario.disk_read Scenario.no_engine Scenario.disk_mkdir
       Scenario.disk_write Scenario.disk_stat
       (mkConfiguration [Scenario.page [lit "src/missing.ts"] None]))
    Scenario.options = Ok tt /\
  plugin_onEnd
    (@htmlPlugin Scenario.P0 Scenario.disk Scenario.disk_exists
       Scenario.disk_read Scenario.no_engine Scenario.disk_mkdir
       Scenario.disk_write Scenario.disk_stat
       (mkConfiguration [Scenario.page [lit "src/missing.ts"] None]))
    Scenario.options (Some Scenario.app_build) [] =
    ([(lit "out/index.html", lit "<head><title>T</title></head>")], None).
Proof. repeat split. Qed.

(** ** Rendering *)

(** C7: without [define] the template is returned as it is, be it the
    text given in the configuration, the content of the file it names or
    the built-in one, and the template engine has no part in the result. *)
Theorem renderTemplate_without_define (existsSync : str -> bool)
  (readFile : str -> result str)
  (lodashTemplate : str -> list (str * str) -> result str)
  (c : HtmlFileConfiguration) :
  define c = None ->
  (forall t, htmlTemplate c = Some t -> t <> [] -> existsSync t = false ->
     renderTemplate existsSync readFile lodashTemplate c = Ok t) /\
  (forall t content, htmlTemplate c = Some t -> t <> [] ->
     existsSync t = true -> readFile t = Ok content -> content <> [] ->
     renderTemplate existsSync readFile lodashTemplate c = Ok content) /\
  (htmlTemplate c = None ->
     renderTemplate existsSync readFile lodashTemplate c
       = Ok defaultHtmlTemplate) /\
  (forall engine,
     renderTemplate existsSync readFile engine c
       = renderTemplate existsSync readFile lodashTemplate c).
Proof.
  intros Hd. unfold renderTemplate. rewrite Hd. repeat split.
  - intros t -> Ht He. rewrite He, andb_false_r. simpl.
    destruct t; [contradiction|reflexivity].
  - intros t content -> Ht He Hr Hc. rewrite He, andb_true_r.
    destruct t; [contradiction|]. simpl. rewrite Hr. simpl.
    destruct content; [contradiction|reflexivity].
  - intros ->. reflexivity.
Qed.

(** C7 on a template with [<%= %>] and [${ }] in it, with an engine that
    would fail if it were called. *)
Lemma renderTemplate_without_define_witness :
  renderTemplate Scenario.no_file Scenario.unreadable Scenario.no_engine
    Scenario.raw_page = Ok Scenario.raw_text.
Proof.
  apply (renderTemplate_without_define Scenario.no_file Scenario.unreadable
           Scenario.no_engine Scenario.raw_page); reflexivity || discriminate.
Defined.

(** ** Public path *)

Lemma endsWith_iff (x suffix : str) :
  JSString.endsWith x suffix = true <-> exists q, x = q ++ suffix.
Proof.
  unfold JSString.endsWith. rewrite StringFacts.prefix_b_iff. split.
  - intros [r H]. exists (rev r).
    rewrite <- (rev_involutive x), H, rev_app_distr, rev_involutive.
    reflexivity.
  - intros [q ->]. exists (rev q). now rewrite rev_app_distr.
Qed.

(** C8: an empty public path counts as ".", and the result is the public
    path, a slash unless the public path ends in one, and the normalized
    relative path; on POSIX both "/static" and "/static/" with "js/app.js"
    give "/static/js/app.js". *)
Theorem joinWithPublicPath_one_slash :
  (forall (P : PathModule) (publicPath relPath : str),
     (publicPath = [] ->
        joinWithPublicPath publicPath relPath
          = lit "." ++ lit "/" ++ normalize relPath) /\
     (publicPath <> [] -> ~ ends_with_slash publicPath ->
        joinWithPublicPath publicPath relPath
          = publicPath ++ lit "/" ++ normalize relPath) /\
     (ends_with_slash publicPath ->
        joinWithPublicPath publicPath relPath
          = publicPath ++ normalize relPath)) /\
  (forall cwd : str,
     @joinWithPublicPath (posix cwd) (lit "/static") (lit "js/app.js")
       = lit "/static/js/app.js" /\
     @joinWithPublicPath (posix cwd) (lit "/static/") (lit "js/app.js")
       = lit "/static/js/app.js").
Proof.
  split; [|split; reflexivity].
  intros P publicPath relPath. unfold joinWithPublicPath. repeat split.
  - intros ->. reflexivity.
  - intros Hne Hs. destruct publicPath as [|c q]; [contradiction|].
    cbn [truthy].
    destruct (JSString.endsWith (c :: q) (lit "/")) eqn:E; [|reflexivity].
    exfalso. apply Hs. now apply endsWith_iff.
  - intros Hs. pose proof Hs as [q ->].
    assert (E : JSString.endsWith (q ++ lit "/") (lit "/") = true)
      by (apply endsWith_iff; now exists q).
    destruct (q ++ lit "/") eqn:Eq.
    + destruct q; discriminate.
    + cbn [truthy]. now rewrite E.
Qed.

(** C8 on "https://cdn.example" and on "assets/" under POSIX. *)
Lemma joinWithPublicPath_one_slash_witness :
  @joinWithPublicPath Scenario.P0 (lit "https://cdn.example") (lit "a//b.js")
    = lit "https://cdn.example/a/b.js" /\
  @joinWithPublicPath Scenario.P0 (lit "assets/") (lit "./b.js")
    = lit "assets/b.js".
Proof.
  destruct joinWithPublicPath_one_slash as [H _]. split.
  - apply (H Scenario.P0 (lit "https://cdn.example") (lit "a//b.js")).
    + discriminate.
    + intros E. apply endsWith_iff in E. vm_compute in E. discriminate.
  - apply (H Scenario.P0 (lit "assets/") (lit "./b.js")).
    exists (lit "assets"). reflexivity.
Defined.

(** ** Related files by naming template *)


(** When the anchor is among the outputs it is found as well. *)
Lemma pattern_match_includes_anchor (cwd : str) :
  @findNameRelatedOutputFiles (posix cwd) Scenario.hashed_anchor
    (Some Scenario.hashed_build) (Some (lit "[dir]/[name]-[hash]")) =
    Ok [Scenario.hashed_anchor;
        mkAsset (lit "assets/app-AB2C3D4E.css") Scenario.plain].
Proof. reflexivity. Qed.

(** ** Occurrences and [replace] *)

Module Occurrences.
Import JSString StringFacts.

Lemma prefix_agree (m n v : str) :
  prefix_b m (n ++ v) = true -> agree m n = true.
Proof.
  revert n; induction m as [|c m IH]; intros [|d n]; simpl; auto.
  rewrite !andb_true_iff. intros [E H]. split; [exact E|]. now apply IH.
Qed.

Lemma prefix_overlap (m n u v : str) :
  prefix_b m (u ++ n ++ v) = true ->
  length u < length m ->
  agree (skipn (length u) m) n = true.
Proof.
  revert m; induction u as [|c u IH]; intros m H L.
  - simpl in *. now apply prefix_agree with v.
  - destruct m as [|d m]; [simpl in L; lia|].
    simpl in H. apply andb_true_iff in H as [_ H].
    simpl. apply IH; [exact H | simpl in L; lia].
Qed.

Lemma prefix_b_short (m u w : str) :
  prefix_b m (u ++ w) = true -> length m <= length u ->
  prefix_b m u = true /\ skipn (length m) (u ++ w) = skipn (length m) u ++ w.
Proof.
  revert u; induction m as [|c m IH]; intros u H L.
  - simpl. auto.
  - destruct u as [|d u]; [simpl in L; lia|].
    simpl in H. apply andb_true_iff in H as [E H].
    simpl. rewrite E. simpl. apply IH; [exact H | simpl in L; lia].
Qed.

Lemma prefix_b_extend (m u w : str) :
  prefix_b m u = true -> prefix_b m (u ++ w) = true.
Proof.
  intros H. apply prefix_b_iff in H as [r ->].
  rewrite <- app_assoc. apply prefix_b_app.
Qed.

Lemma apart_left (m n : str) (d : nat) :
  apart m n = true -> d < length m -> agree (skipn d m) n = false.
Proof.
  unfold apart. rewrite !andb_true_iff. intros [[H _] _] L.
  rewrite forallb_forall in H. apply negb_true_iff, H, in_seq. lia.
Qed.

Lemma apart_right (m n : str) (d : nat) :
  apart m n = true -> d < length n -> agree m (skipn d n) = false.
Proof.
  unfold apart. rewrite !andb_true_iff. intros [[_ H] _] L.
  rewrite forallb_forall in H. apply negb_true_iff, H, in_seq. lia.
Qed.

Lemma apart_nonempty (m n : str) : apart m n = true -> m <> [].
Proof.
  unfold apart. rewrite !andb_true_iff. intros [_ H] ->.
  simpl in H. discriminate.
Qed.

(** The search for [m] walks over a text that [m] cannot overlap. *)
Lemma find_split_skip (m n v : str) :
  (forall d, d < length n -> agree m (skipn d n) = false) ->
  find_split m (n ++ v) =
  match find_split m v with
  | Some (p, s) => Some (n ++ p, s)
  | None => None
  end.
Proof.
  induction n as [|c n IH]; intros H.
  - simpl. now destruct (find_split m v) as [[p s]|].
  - simpl app. rewrite find_split_eq.
    assert (E : prefix_b m (c :: n ++ v) = false).
    { destruct (prefix_b m (c :: n ++ v)) eqn:E; [|reflexivity].
      apply (prefix_agree m (c :: n) v) in E.
      assert (H0 : agree m (skipn 0 (c :: n)) = false)
        by (apply H; simpl; lia).
      simpl in H0. congruence. }
    rewrite E, IH.
    + now destruct (find_split m v) as [[p s]|].
    + intros d Hd. apply (H (S d)). simpl; lia.
Qed.

(** Where the first [m] is found in a text around an occurrence of [n]. *)
Lemma find_split_across (m n u v : str) :
  apart m n = true ->
  find_split m (u ++ n ++ v) =
  match find_split m u with
  | Some (p, s) => Some (p, s ++ n ++ v)
  | None =>
      match find_split m v with
      | Some (p, s) => Some (u ++ n ++ p, s)
      | None => None
      end
  end.
Proof.
  intros A. induction u as [|c u IH].
  - simpl app. rewrite (find_split_eq m []).
    destruct m as [|d m]; [now apply apart_nonempty in A|].
    simpl prefix_b. cbv iota.
    apply find_split_skip. intros k Hk. now apply apart_right.
  - simpl app. rewrite (find_split_eq m (c :: u ++ n ++ v)).
    rewrite (find_split_eq m (c :: u)).
    destruct (prefix_b m (c :: u ++ n ++ v)) eqn:E.
    + destruct (le_lt_dec (length m) (length (c :: u))) as [L|L].
      * destruct (prefix_b_short m (c :: u) (n ++ v) E L) as [E1 E2].
        rewrite E1. simpl app in E2. now rewrite E2.
      * apply (prefix_overlap m n (c :: u) v) in E; [|exact L].
        rewrite apart_left in E; [discriminate | exact A | exact L].
    + destruct (prefix_b m (c :: u)) eqn:E1.
      * apply (prefix_b_extend m (c :: u) (n ++ v)) in E1.
        simpl app in E1. congruence.
      * rewrite IH. destruct (find_split m u) as [[p s]|]; [reflexivity|].
        now destruct (find_split m v) as [[p s]|].
Qed.

(** A replacement of [m] leaves an occurrence of [n] in place. *)
Lemma replace_keeps_one (m n tmpl x : str) :
  apart m n = true -> occurs n x -> occurs n (replace m tmpl x).
Proof.
  intros A (u & v & ->). unfold replace.
  rewrite (find_split_across m n u v A).
  destruct (find_split m u) as [[p s]|].
  - exists (p ++ GetSubstitution m p (s ++ n ++ v) tmpl ++ s), v.
    now rewrite <- !app_assoc.
  - destruct (find_split m v) as [[p s]|].
    + exists u, (p ++ GetSubstitution m (u ++ n ++ p) s tmpl ++ s).
      now rewrite <- !app_assoc.
    + now exists u, v.
Qed.

(** A replacement of [m] leaves two occurrences of [n] in place. *)
Lemma replace_keeps_two (m n tmpl x : str) :
  apart m n = true -> occurs_twice n x -> occurs_twice n (replace m tmpl x).
Proof.
  intros A (u & v & w & ->). unfold replace.
  rewrite (find_split_across m n u (v ++ n ++ w) A).
  destruct (find_split m u) as [[p s]|].
  - exists (p ++ GetSubstitution m p (s ++ n ++ v ++ n ++ w) tmpl ++ s), v, w.
    now rewrite <- !app_assoc.
  - rewrite (find_split_across m n v w A).
    destruct (find_split m v) as [[p s]|].
    + exists u, (p ++ GetSubstitution m (u ++ n ++ p) (s ++ n ++ w) tmpl ++ s),
        w.
      now rewrite <- !app_assoc.
    + destruct (find_split m w) as [[p s]|].
      * exists u, v,
          (p ++ GetSubstitution m (u ++ n ++ v ++ n ++ p) s tmpl ++ s).
        now rewrite <- !app_assoc.
      * now exists u, v, w.
Qed.

(** A replacement of [n] takes the first of two occurrences of [n] and
    leaves the other. *)
Lemma replace_takes_first (n tmpl x : str) :
  occurs_twice n x -> occurs n (replace n tmpl x).
Proof.
  intros (u & v & w & ->). unfold replace.
  destruct (find_split_occurs n (u ++ n ++ v ++ n ++ w)) as (p & s & F);
    [now exists u, (v ++ n ++ w)|].
  rewrite F.
  pose proof (find_split_least _ _ _ _ F u (v ++ n ++ w) eq_refl) as L.
  apply find_split_Some in F.
  assert (E : (u ++ n) ++ v ++ n ++ w = (p ++ n) ++ s)
    by (now rewrite <- !app_assoc).
  apply app_eq_app in E as [l [[E1 E2]|[E1 E2]]].
  - exists (p ++ GetSubstitution n p s tmpl ++ l ++ v), w.
    rewrite E2. now rewrite <- !app_assoc.
  - assert (l = []).
    { apply (f_equal (@length ascii)) in E1.
      rewrite !length_app in E1. destruct l; [reflexivity|simpl in E1; lia]. }
    subst l. simpl in E2. subst s.
    exists (p ++ GetSubstitution n p (v ++ n ++ w) tmpl ++ v), w.
    now rewrite <- !app_assoc.
Qed.

Lemma escapeRegExp_app (a b : str) :
  escapeRegExp (a ++ b) = escapeRegExp a ++ escapeRegExp b.
Proof. apply flat_map_app. Qed.

Lemma escapeRegExp_occurs (n x : str) :
  occurs n x -> occurs (escapeRegExp n) (escapeRegExp x).
Proof.
  intros (u & v & ->). exists (escapeRegExp u), (escapeRegExp v).
  now rewrite !escapeRegExp_app.
Qed.

Lemma escapeRegExp_occurs_twice (n x : str) :
  occurs_twice n x -> occurs_twice (escapeRegExp n) (escapeRegExp x).
Proof.
  intros (u & v & w & ->).
  exists (escapeRegExp u), (escapeRegExp v), (escapeRegExp w).
  now rewrite !escapeRegExp_app.
Qed.

End Occurrences.


(** ** The patterns the plugin builds are well formed *)

Module Patterns.
Import RegExp.

Ltac split_orb H :=
  repeat match type of H with
    | (_ || _) = false =>
        let E := fresh "E" in
        apply orb_false_iff in H; destruct H as [E H]; try split_orb E
    end.

Ltac rewrite_tests :=
  repeat match goal with
    | E : Ascii.eqb _ _ = false |- _ => rewrite E; clear E
    end.

Lemma special_enum (c : ascii) :
  is_special c = true -> In c (lit "-[]{}()*+?.,\^$|#" ++ white_space).
Proof.
  unfold is_special, is_space. rewrite <- existsb_app.
  intros H. apply existsb_exists in H as (x & Hx & E).
  apply Ascii.eqb_eq in E. now subst.
Qed.

Lemma run_app (st : pstate) (a b : str) :
  run st (a ++ b) =
  match run st a with
  | Some st' => run st' b
  | None => None
  end.
Proof.
  revert st; induction a as [|c a IH]; intros st; simpl; [reflexivity|].
  destruct (step st c); [apply IH | reflexivity].
Qed.

Lemma step_plain (st : pstate) (c : ascii) :
  p_mode st = MNormal -> is_special c = false ->
  step st c = Some (push_atom (RChar c) true st).
Proof.
  intros M H. unfold step. rewrite M. unfold step_normal.
  unfold is_special in H. cbn [existsb lit list_ascii_of_string] in H.
  split_orb H. rewrite_tests. reflexivity.
Qed.

Lemma run_token (st : pstate) (t : token) :
  p_mode st = MNormal -> tok_ok t ->
  run st (render_tok t) = Some (push_atom (term_of t) true st).
Proof.
  intros M H. destruct t as [c|c|g]; simpl in H.
  - simpl. now rewrite step_plain.
  - apply special_enum in H. destruct st; simpl in M; subst.
    simpl in H.
    repeat (destruct H as [<-|H]; [reflexivity|]). contradiction.
  - destruct st; simpl in M; subst. destruct g; reflexivity.
Qed.

Lemma run_tokens (ts : list token) (st : pstate) :
  p_mode st = MNormal -> Forall tok_ok ts ->
  exists st',
    run st (render ts) = Some st' /\
    p_mode st' = MNormal /\ p_alts st' = p_alts st /\
    p_stack st' = p_stack st /\
    p_seq st' = rev (map term_of ts) ++ p_seq st.
Proof.
  revert st; induction ts as [|t ts IH]; intros st M H.
  - exists st. simpl. auto.
  - inversion H as [|? ? Ht Hts]; subst.
    destruct (IH (push_atom (term_of t) true st) eq_refl Hts)
      as (st' & R & M' & A & S & Q).
    exists st'. unfold render. cbn [flat_map]. rewrite run_app.
    rewrite (run_token st t M Ht). fold (render ts). rewrite R.
    repeat split; try assumption.
    rewrite Q. simpl. now rewrite <- app_assoc.
Qed.

Lemma parse_tokens (ts : list token) :
  Forall tok_ok ts -> RegExp.parse (render ts) = Some (regex_of ts).
Proof.
  intros H. unfold RegExp.parse.
  destruct (run_tokens ts p_init eq_refl H) as (st & R & M & A & S & Q).
  rewrite R. unfold finish. rewrite M, S. simpl.
  unfold level_regex. rewrite A, Q. simpl.
  now rewrite app_nil_r, rev_involutive.
Qed.

Lemma names_regex_of (ts : list token) :
  names (regex_of ts) = map group_name (groups_of ts).
Proof.
  unfold regex_of. induction ts as [|t ts IH]; [reflexivity|].
  destruct t as [c|c|g]; simpl; try exact IH.
  destruct g; simpl; now rewrite IH.
Qed.

Lemma mem_group_name (g : placeholder) (gs : list placeholder) :
  mem (group_name g) (map group_name gs) = true -> In g gs.
Proof.
  induction gs as [|h gs IH]; simpl; [discriminate|].
  rewrite orb_true_iff. intros [E|E]; [|right; now apply IH].
  left. destruct g, h; try reflexivity; discriminate.
Qed.

Lemma distinct_group_names (gs : list placeholder) :
  NoDup gs -> distinct (map group_name gs) = true.
Proof.
  induction 1 as [|g gs Hn Hd IH]; simpl; [reflexivity|].
  rewrite IH, andb_true_r. apply negb_true_iff.
  destruct (mem (group_name g) (map group_name gs)) eqn:E; [|reflexivity].
  now apply mem_group_name in E.
Qed.

(** A pattern made of such items, no group twice, is accepted. *)
Lemma create_tokens (ts : list token) :
  Forall tok_ok ts -> NoDup (groups_of ts) ->
  RegExp.create (render ts) = Ok (regex_of ts).
Proof.
  intros H N. unfold RegExp.create. rewrite (parse_tokens ts H).
  now rewrite names_regex_of, distinct_group_names.
Qed.

End Patterns.

(** ** Replacing a placeholder in a pattern *)

Module Placeholders.
Import JSString StringFacts Occurrences.

Lemma render_app (a b : list token) : render (a ++ b) = render a ++ render b.
Proof. apply flat_map_app. Qed.

Lemma groups_of_app (a b : list token) :
  groups_of (a ++ b) = groups_of a ++ groups_of b.
Proof.
  induction a as [|t a IH]; [reflexivity|].
  destruct t; simpl; now rewrite IH.
Qed.

Lemma escapeRegExp_tokens (text : str) :
  escapeRegExp text = render (map tok_of_char text) /\
  Forall tok_ok (map tok_of_char text) /\
  groups_of (map tok_of_char text) = [].
Proof.
  induction text as [|c text (E & F & G)]; [repeat split; constructor|].
  change (escapeRegExp (c :: text))
    with ((if is_special c then ["\"%char; c] else [c]) ++ escapeRegExp text).
  change (render (map tok_of_char (c :: text)))
    with (render_tok (tok_of_char c) ++ render (map tok_of_char text)).
  cbn [map]. rewrite E.
  assert (T : tok_of_char c = if is_special c then TEsc c else TPlain c)
    by reflexivity.
  destruct (is_special c) eqn:S; rewrite T; repeat split; try assumption;
    constructor; assumption.
Qed.

Lemma needle_head (g : placeholder) :
  exists r, needle g = "\"%char :: "["%char :: r.
Proof. destruct g; eexists; reflexivity. Qed.

Lemma special_backslash : is_special "\" = true.
Proof. reflexivity. Qed.

Lemma special_bracket : is_special "[" = true.
Proof. reflexivity. Qed.

Lemma group_text_head (g : placeholder) :
  exists r, group_text g = "("%char :: r.
Proof. destruct g; eexists; reflexivity. Qed.

(** No item starts with an opening bracket. *)
Lemma render_no_bracket (ts : list token) (r : str) :
  Forall tok_ok ts -> prefix_b ("["%char :: r) (render ts) = false.
Proof.
  intros H. destruct ts as [|t ts]; [reflexivity|].
  inversion H as [|? ? Ht _]; subst. destruct t as [c|c|g].
  - change (render (TPlain c :: ts)) with (c :: render ts).
    cbn [prefix_b tok_ok] in *.
    destruct (Ascii.eqb_spec "[" c) as [<-|_]; [|reflexivity].
    rewrite special_bracket in Ht. discriminate.
  - reflexivity.
  - destruct g; reflexivity.
Qed.

Lemma peel_plain (ts : list token) (c : ascii) (r : str) :
  Forall tok_ok ts -> render ts = c :: r ->
  c <> "\"%char -> c <> "("%char ->
  exists ts', ts = TPlain c :: ts' /\ Forall tok_ok ts' /\ render ts' = r.
Proof.
  intros H E N1 N2. destruct ts as [|t ts]; [discriminate|].
  inversion H as [|? ? Ht Hts]; subst. destruct t as [d|d|g]; simpl in E.
  - injection E as -> <-. now exists ts.
  - injection E as <- _. contradiction.
  - destruct (group_text_head g) as [q Q]. unfold render in E.
    cbn [flat_map render_tok] in E. rewrite Q in E.
    injection E as <- _. contradiction.
Qed.

Lemma peel_esc (ts : list token) (c : ascii) (r : str) :
  Forall tok_ok ts -> render ts = "\"%char :: c :: r ->
  exists ts', ts = TEsc c :: ts' /\ Forall tok_ok ts' /\ render ts' = r.
Proof.
  intros H E. destruct ts as [|t ts]; [discriminate|].
  inversion H as [|? ? Ht Hts]; subst. destruct t as [d|d|g]; simpl in E.
  - injection E as -> _. simpl in Ht. rewrite special_backslash in Ht.
    discriminate.
  - injection E as -> <-. now exists ts.
  - destruct (group_text_head g) as [q Q]. unfold render in E.
    cbn [flat_map render_tok] in E. rewrite Q in E. discriminate.
Qed.

(** An escaped placeholder at the head of a pattern takes whole items. *)
Lemma peel_needle (g : placeholder) (ts : list token) (c : ascii) (s : str) :
  Forall tok_ok ts ->
  "\"%char :: c :: render ts = needle g ++ s ->
  exists ts', s = render ts' /\ Forall tok_ok ts' /\
              groups_of ts = groups_of ts'.
Proof.
  intros H E.
  destruct g; simpl in E; injection E as _ E;
    repeat match goal with
      | H : Forall tok_ok ?l, E : render ?l = "\"%char :: _ :: _ |- _ =>
          apply (peel_esc l) in E as (? & -> & ? & ?); [|exact H]; clear H
      | H : Forall tok_ok ?l, E : render ?l = _ :: _ |- _ =>
          apply (peel_plain l) in E as (? & -> & ? & ?);
            [|exact H|discriminate|discriminate]; clear H
      end;
    match goal with
    | E : render ?l = s |- _ =>
        exists l; repeat split; [now symmetry | assumption]
    end.
Qed.

Lemma clear_of_groups (g g' : placeholder) (d : nat) :
  d < length (group_text g') ->
  agree (needle g) (skipn d (group_text g')) = false.
Proof.
  intros L.
  assert (A : forallb (fun d => negb (agree (needle g) (skipn d (group_text g'))))
                (seq 0 (length (group_text g'))) = true)
    by (destruct g, g'; reflexivity).
  rewrite forallb_forall in A. apply negb_true_iff, A, in_seq. lia.
Qed.

(** The first escaped placeholder of a pattern lies between whole items. *)
Lemma find_split_tokens (g : placeholder) (ts : list token) :
  Forall tok_ok ts ->
  match find_split (needle g) (render ts) with
  | None => True
  | Some (p, s) =>
      exists tp tsx,
        p = render tp /\ s = render tsx /\
        Forall tok_ok tp /\ Forall tok_ok tsx /\
        groups_of ts = groups_of tp ++ groups_of tsx
  end.
Proof.
  induction ts as [|t ts IH]; intros H.
  - destruct g; exact I.
  - inversion H as [|? ? Ht Hts]; subst. specialize (IH Hts).
    destruct (needle_head g) as [nr N].
    destruct t as [c|c|g'].
    + (* a plain character is not a backslash *)
      change (render (TPlain c :: ts)) with (c :: render ts).
      rewrite find_split_eq.
      assert (E : prefix_b (needle g) (c :: render ts) = false).
      { rewrite N, prefix_b_cons. cbn [tok_ok] in Ht.
        destruct (Ascii.eqb_spec "\" c) as [<-|_]; [|reflexivity].
        rewrite special_backslash in Ht. discriminate. }
      rewrite E. destruct (find_split (needle g) (render ts)) as [[p s]|];
        [|exact I].
      destruct IH as (tp & tsx & -> & -> & Hp & Hs & G).
      exists (TPlain c :: tp), tsx. repeat split; auto.
    + (* an escaped character: the placeholder starts here or after it *)
      change (render (TEsc c :: ts)) with ("\"%char :: c :: render ts).
      rewrite find_split_eq.
      destruct (prefix_b (needle g) ("\"%char :: c :: render ts)) eqn:E.
      * apply prefix_b_true in E.
        destruct (peel_needle g ts c _ Hts E) as (ts' & S & Hs & G).
        exists [], ts'. repeat split; auto.
      * rewrite find_split_eq.
        assert (E1 : prefix_b (needle g) (c :: render ts) = false).
        { rewrite N, prefix_b_cons, (render_no_bracket ts nr Hts).
          apply andb_false_r. }
        rewrite E1.
        destruct (find_split (needle g) (render ts)) as [[p s]|]; [|exact I].
        destruct IH as (tp & tsx & -> & -> & Hp & Hs & G).
        exists (TEsc c :: tp), tsx. repeat split; auto.
    + (* a group holds no escaped placeholder *)
      change (render (TGroup g' :: ts)) with (group_text g' ++ render ts).
      rewrite find_split_skip by (intros d; apply clear_of_groups).
      destruct (find_split (needle g) (render ts)) as [[p s]|]; [|exact I].
      destruct IH as (tp & tsx & -> & -> & Hp & Hs & G).
      exists (TGroup g' :: tp), tsx. repeat split; auto.
      simpl. now rewrite G.
Qed.

Lemma group_text_literal (g : placeholder) : ~ In "$"%char (group_text g).
Proof. destruct g; not_in_literal. Qed.

(** Putting the group of [g] in the place of its placeholder gives a
    pattern of the same kind, with that group at most once more. *)
Lemma replace_tokens (g : placeholder) (ts : list token) :
  Forall tok_ok ts -> NoDup (groups_of ts) -> ~ In g (groups_of ts) ->
  exists ts',
    replace (needle g) (group_text g) (render ts) = render ts' /\
    Forall tok_ok ts' /\ NoDup (groups_of ts') /\
    incl (groups_of ts') (g :: groups_of ts).
Proof.
  intros H N I. pose proof (find_split_tokens g ts H) as F.
  unfold replace. destruct (find_split (needle g) (render ts)) as [[p s]|].
  - destruct F as (tp & tsx & -> & -> & Hp & Hs & G).
    exists (tp ++ TGroup g :: tsx).
    rewrite (GetSubstitution_literal _ _ _ _ (group_text_literal g)).
    rewrite render_app, groups_of_app. simpl. repeat split.
    + apply Forall_app; split; [exact Hp|]. now constructor.
    + apply (NoDup_Add (Add_app g (groups_of tp) (groups_of tsx))).
      rewrite <- G. now split.
    + intros x Hx. rewrite G. apply in_app_or in Hx as [Hx|[Hx|Hx]].
      * right. apply in_or_app. now left.
      * now left.
      * right. apply in_or_app. now right.
  - exists ts. repeat split; auto. now apply incl_tl, incl_refl.
Qed.

End Placeholders.

(** ** The search for related files never throws *)

Lemma filterM_total {A} (f : A -> result bool) (g : A -> bool) (l : list A) :
  (forall x, f x = Ok (g x)) -> filterM f l = Ok (filter g l).
Proof.
  intros H. induction l as [|x l IH]; [reflexivity|].
  simpl. rewrite H, IH. simpl. reflexivity.
Qed.

Lemma first_pattern_accepted (entryNames : str) :
  exists ts,
    findVariablesRegexString entryNames = render ts /\
    RegExp.create (findVariablesRegexString entryNames) = Ok (regex_of ts).
Proof.
  destruct (Placeholders.escapeRegExp_tokens entryNames) as (E & F & G).
  destruct (Placeholders.replace_tokens GHash _ F) as (t1 & E1 & F1 & N1 & I1).
  { rewrite G. constructor. }
  { rewrite G. intros []. }
  destruct (Placeholders.replace_tokens GName _ F1 N1) as (t2 & E2 & F2 & N2 & I2).
  { intros H. apply I1 in H. rewrite G in H. destruct H as [H|[]]. discriminate. }
  destruct (Placeholders.replace_tokens GDir _ F2 N2) as (t3 & E3 & F3 & N3 & I3).
  { intros H. apply I2 in H as [H|H]; [discriminate|].
    apply I1 in H. rewrite G in H. destruct H as [H|[]]. discriminate. }
  exists t3. unfold findVariablesRegexString.
  cbn [needle group_text] in E1, E2, E3.
  rewrite E, E1, E2, E3. split; [reflexivity|].
  now apply Patterns.create_tokens.
Qed.

Lemma second_pattern_accepted (entryNames : str) (name dir : option str) :
  exists ts,
    findFilesWithSameVariablesRegexString entryNames name dir = render ts /\
    RegExp.create (findFilesWithSameVariablesRegexString entryNames name dir)
      = Ok (regex_of ts).
Proof.
  unfold findFilesWithSameVariablesRegexString.
  set (raw := JSString.replace _ _ (JSString.replace _ _ entryNames)).
  destruct (Placeholders.escapeRegExp_tokens raw) as (E & F & G).
  destruct (Placeholders.replace_tokens GHash _ F) as (t1 & E1 & F1 & N1 & I1).
  { rewrite G. constructor. }
  { rewrite G. intros []. }
  exists t1. cbn [needle group_text] in E1. rewrite E, E1.
  split; [reflexivity|]. now apply Patterns.create_tokens.
Qed.

Section RelatedFiles.

Context {P : PathModule}.

(** With a naming template both patterns are accepted, and the result is
    the list of the outputs whose path the second one matches. *)
Lemma findNameRelatedOutputFiles_templated (entrypoint : Asset)
  (mf : option Metafile) (entryNames : str) :
  truthy entryNames = true ->
  exists re1 re2,
    RegExp.create (findVariablesRegexString entryNames) = Ok re1 /\
    let m :=
      RegExp.exec re1
        (posixJoin [dir (parse (path entrypoint));
                    name (parse (path entrypoint))]) in
    RegExp.create
      (findFilesWithSameVariablesRegexString entryNames
         (RegExp.group m (lit "name")) (RegExp.group m (lit "dir")))
      = Ok re2 /\
    findNameRelatedOutputFiles entrypoint mf (Some entryNames) =
      Ok (map flatten
            (filter (fun kv => RegExp.test re2 (fst kv)) (outputs_of mf))).
Proof.
  intros T.
  destruct (first_pattern_accepted entryNames) as (t1 & _ & C1).
  exists (regex_of t1).
  set (m := RegExp.exec (regex_of t1) _).
  destruct (second_pattern_accepted entryNames
              (RegExp.group m (lit "name")) (RegExp.group m (lit "dir")))
    as (t2 & _ & C2).
  exists (regex_of t2). split; [exact C1|]. split; [exact C2|].
  unfold findNameRelatedOutputFiles. cbn [truthy_opt or_empty].
  rewrite T, C1. cbn [bind]. fold m.
  rewrite (filterM_total _ (fun kv => RegExp.test (regex_of t2) (fst kv))).
  - reflexivity.
  - intros kv. now rewrite C2.
Qed.

Lemma findNameRelatedOutputFiles_total (entrypoint : Asset)
  (mf : option Metafile) (entryNames : option str) :
  exists l, findNameRelatedOutputFiles entrypoint mf entryNames = Ok l.
Proof.
  destruct (truthy_opt entryNames) eqn:T.
  - destruct entryNames as [en|]; [|discriminate].
    destruct (findNameRelatedOutputFiles_templated entrypoint mf en T)
      as (re1 & re2 & _ & _ & H).
    eauto.
  - unfold findNameRelatedOutputFiles. rewrite T. eauto.
Qed.

(** C10: when the anchor does not match the pattern of the naming
    template nothing is thrown: both patterns are accepted, the second one
    is built with the empty string for [name] and for [dir], and the result
    is the list of the outputs whose path it matches. *)
Theorem unmatched_anchor_searches_with_empty_captures (entrypoint : Asset)
  (mf : option Metafile) (entryNames : str) :
  truthy entryNames = true ->
  exists re1 re2,
    RegExp.create (findVariablesRegexString entryNames) = Ok re1 /\
    RegExp.create
      (JSString.replace (lit "\[hash\]") REGEXES.HASH_REGEX
         (escapeRegExp
            (JSString.replace (lit "[dir]") []
               (JSString.replace (lit "[name]") [] entryNames))))
      = Ok re2 /\
    (RegExp.exec re1
       (posixJoin [dir (parse (path entrypoint));
                   name (parse (path entrypoint))]) = None ->
     findNameRelatedOutputFiles entrypoint mf (Some entryNames) =
       Ok (map flatten
             (filter (fun kv => RegExp.test re2 (fst kv)) (outputs_of mf)))).
Proof.
  intros T.
  destruct (findNameRelatedOutputFiles_templated entrypoint mf entryNames T)
    as (re1 & re2 & C1 & C2 & H).
  destruct (second_pattern_accepted entryNames None None) as (t & _ & C).
  exists re1, (regex_of t). split; [exact C1|]. split; [exact C|].
  intros E. rewrite E in C2. cbn [RegExp.group] in C2.
  rewrite H. unfold findFilesWithSameVariablesRegexString in C.
  cbn [or_empty] in C. unfold findFilesWithSameVariablesRegexString in C2.
  cbn [or_empty] in C2. rewrite C in C2. injection C2 as <-. reflexivity.
Qed.

End RelatedFiles.

(** C10 on "[dir]/[name]-[hash]" and the anchor out/app.js, whose name has
    no hash: the pattern left is "/\-" followed by the hash group, and it
    finds x/-ABCDEFGH.js only. *)
Lemma unmatched_anchor_searches_with_empty_captures_witness :
  @findNameRelatedOutputFiles Scenario.P0 Scenario.plain_anchor
    (Some Scenario.plain_build) (Some (lit "[dir]/[name]-[hash]"))
    = Ok [mkAsset (lit "x/-ABCDEFGH.js") Scenario.plain].
Proof.
  destruct (@unmatched_anchor_searches_with_empty_captures Scenario.P0
              Scenario.plain_anchor (Some Scenario.plain_build)
              (lit "[dir]/[name]-[hash]") eq_refl)
    as (re1 & re2 & C1 & C2 & H).
  vm_compute in C1. injection C1 as <-.
  vm_compute in C2. injection C2 as <-.
  rewrite H; reflexivity.
Defined.

(** ** The outputs collected for a page *)

Module MapFacts.
Import JSMap.

Lemma in_keys_set {V} (k k' : str) (v : V) (m : t V) :
  In k' (keys (set k v m)) <-> k' = k \/ In k' (keys m).
Proof.
  unfold keys. induction m as [|[k0 v0] m IH]; simpl.
  - intuition.
  - destruct (str_eqb k k0) eqn:E; simpl.
    + apply str_eqb_eq in E. subst. intuition.
    + rewrite IH. intuition.
Qed.

Lemma NoDup_keys_set {V} (k : str) (v : V) (m : t V) :
  NoDup (keys m) -> NoDup (keys (set k v m)).
Proof.
  unfold keys. induction m as [|[k0 v0] m IH]; simpl; intros H.
  - constructor; [intros []|constructor].
  - inversion H as [|? ? Hn Hd]; subst.
    destruct (str_eqb k k0) eqn:E; simpl.
    + apply str_eqb_eq in E. subst. now constructor.
    + constructor; [|now apply IH].
      intros Hin. apply (in_keys_set k k0 v m) in Hin as [->|Hin].
      * rewrite str_eqb_refl in E. discriminate.
      * now apply Hn.
Qed.

Lemma well_keyed_set (a : Asset) (m : t Asset) :
  well_keyed m -> well_keyed (set (path a) a m).
Proof.
  unfold well_keyed. induction m as [|[k0 v0] m IH]; simpl; intros H.
  - now repeat constructor.
  - inversion H; subst. destruct (str_eqb (path a) k0).
    + now constructor.
    + constructor; [assumption | now apply IH].
Qed.

Lemma paths_of_values (m : t Asset) :
  well_keyed m -> map path (values m) = keys m.
Proof.
  unfold well_keyed, values, keys. induction 1 as [|[k v] m H _ IH]; simpl.
  - reflexivity.
  - simpl in H. now rewrite H, IH.
Qed.

(** [items.forEach(item => m.set(item.path, item))] keeps all of it. *)
Lemma fold_set (items : list Asset) (m : t Asset) :
  well_keyed m -> NoDup (keys m) ->
  let m' := fold_left (fun m item => set (path item) item m) items m in
  well_keyed m' /\ NoDup (keys m') /\
  forall k, In k (keys m) -> In k (keys m').
Proof.
  revert m; induction items as [|a items IH]; intros m W N; simpl.
  - auto.
  - destruct (IH (set (path a) a m)) as (W' & N' & I').
    + now apply well_keyed_set.
    + now apply NoDup_keys_set.
    + repeat split; try assumption.
      intros k Hk. apply I'. apply in_keys_set. now right.
Qed.

End MapFacts.

Section Collected.

Context {P : PathModule}.

(** Every collected entry point has its group. *)
Lemma relatedOutputFiles_group (c : HtmlFileConfiguration)
  (mf : option Metafile) (entryNames : option str) (e : Asset) :
  exists m, group_of c mf entryNames e m.
Proof.
  unfold group_of, relatedOutputFiles. cbn [object_truthy negb].
  set (m0 := JSMap.set (path e) e []).
  set (m1 := if flag (findRelatedCssFiles c) then _ else m0).
  assert (W0 : well_keyed m0) by (apply MapFacts.well_keyed_set; constructor).
  assert (N0 : NoDup (JSMap.keys m0))
    by (apply MapFacts.NoDup_keys_set; constructor).
  assert (I0 : In (path e) (JSMap.keys m0))
    by (apply MapFacts.in_keys_set; now left).
  assert (H1 : well_keyed m1 /\ NoDup (JSMap.keys m1) /\
               In (path e) (JSMap.keys m1) /\
               (flag (findRelatedCssFiles c) = true ->
                forall css, cssBundle (fields e) = Some css -> css <> [] ->
                  In css (JSMap.keys m1))).
  { subst m1. destruct (flag (findRelatedCssFiles c));
      [|repeat split; auto; discriminate].
    destruct (cssBundle (fields e)) as [css|]; cbn [truthy_opt or_empty].
    - destruct css as [|x css]; cbn [truthy].
      + repeat split; auto. intros _ css H. injection H as <-. congruence.
      + repeat split.
        * apply (MapFacts.well_keyed_set
                   (mkAsset (x :: css) (mkOutput None None)) m0 W0).
        * now apply MapFacts.NoDup_keys_set.
        * apply MapFacts.in_keys_set. now right.
        * intros _ css' H _. injection H as <-.
          apply MapFacts.in_keys_set. now left.
    - repeat split; auto. discriminate. }
  destruct H1 as (W1 & N1 & I1 & C1).
  destruct (flag (findRelatedOutputFiles c)).
  - destruct (findNameRelatedOutputFiles_total e mf entryNames) as [items ->].
    cbn [bind].
    destruct (MapFacts.fold_set items m1 W1 N1) as (W & N & I).
    eexists. split; [reflexivity|].
    rewrite (MapFacts.paths_of_values _ W). repeat split; auto.
  - exists m1. split; [reflexivity|].
    rewrite (MapFacts.paths_of_values _ W1). repeat split; auto.
Qed.

Lemma collectOutputFiles_groups (c : HtmlFileConfiguration)
  (mf : option Metafile) (entryNames : option str)
  (eps acc : list Asset) :
  exists groups,
    Forall2 (group_of c mf entryNames) eps groups /\
    collectOutputFiles c mf entryNames eps acc =
      Ok (acc ++ concat (map JSMap.values groups)).
Proof.
  revert acc; induction eps as [|e eps IH]; intros acc.
  - exists []. split; [constructor|]. simpl. now rewrite app_nil_r.
  - destruct (relatedOutputFiles_group c mf entryNames e) as [m G].
    destruct (IH (acc ++ JSMap.values m)) as (groups & F & E).
    exists (m :: groups). split; [now constructor|].
    cbn [collectOutputFiles]. destruct G as (R & _). rewrite R.
    cbn [bind]. rewrite E. cbn [map concat]. now rewrite <- app_assoc.
Qed.

(** C4, as amended: the outputs passed to the injection are the groups of
    the collected entry points, one after the other, and within a group no
    path occurs twice: the path of the entry point and its style sheet
    bundle are there once, also when the search by name finds them again. *)
Theorem assets_deduplicated_per_entry_point (c : HtmlFileConfiguration)
  (mf : option Metafile) (entryNames : option str) :
  exists groups,
    Forall2 (group_of c mf entryNames) (collectEntrypoints c mf) groups /\
    collectOutputFiles c mf entryNames (collectEntrypoints c mf) [] =
      Ok (concat (map JSMap.values groups)).
Proof. apply collectOutputFiles_groups. Qed.

End Collected.

(** C4 as the spec has it fails: with out/app.js and out/app.css both
    entry points of the page and related by name, each is collected once
    per entry point, and the page gets each tag twice. *)
Lemma assets_deduplicated_counterexample :
  exists l,
    @collectOutputFiles Scenario.P0 (setDefaults Scenario.twin_page)
      (Some Scenario.twin_build) None
      (collectEntrypoints (setDefaults Scenario.twin_page)
         (Some Scenario.twin_build)) [] = Ok l /\
    map path l =
      [lit "out/app.js"; lit "out/app.css"; lit "out/app.css";
       lit "out/app.js"] /\
    ~ NoDup (map path l) /\
    plugin_onStart
      (@htmlPlugin Scenario.P0 Scenario.disk Scenario.disk_exists
         Scenario.disk_read Scenario.no_engine Scenario.disk_mkdir
         Scenario.disk_write Scenario.disk_stat
         (mkConfiguration [Scenario.twin_page]))
      Scenario.options = Ok tt /\
    plugin_onEnd
      (@htmlPlugin Scenario.P0 Scenario.disk Scenario.disk_exists
         Scenario.disk_read Scenario.no_engine Scenario.disk_mkdir
         Scenario.disk_write Scenario.disk_stat
         (mkConfiguration [Scenario.twin_page]))
      Scenario.options (Some Scenario.twin_build) [] =
      ([(lit "out/index.html",
         lit "<head><title>T</title>"
           ++ lit "<script src=" ++ [dquote] ++ lit "app.js" ++ [dquote]
           ++ lit " defer></script>"
           ++ lit "<link rel=" ++ [dquote] ++ lit "stylesheet" ++ [dquote]
           ++ lit " href=" ++ [dquote] ++ lit "app.css" ++ [dquote] ++ lit ">"
           ++ lit "<link rel=" ++ [dquote] ++ lit "stylesheet" ++ [dquote]
           ++ lit " href=" ++ [dquote] ++ lit "app.css" ++ [dquote] ++ lit ">"
           ++ lit "<script src=" ++ [dquote] ++ lit "app.js" ++ [dquote]
           ++ lit " defer></script>"
           ++ lit "</head>")], None).
Proof.
  eexists. split; [reflexivity|]. split; [reflexivity|]. split.
  - intros H. apply NoDup_cons_iff in H as [H _]. apply H.
    right; right; left; reflexivity.
  - split; reflexivity.
Qed.

(** * Further properties *)

(** ** Collected entry points *)

Lemma includes_In (l : list str) (e : str) :
  includes l e = true <-> In e l.
Proof.
  unfold includes. rewrite existsb_exists. split.
  - intros (x & Hx & E). apply str_eqb_eq in E. now subst.
  - intros H. exists e. split; [exact H | apply str_eqb_refl].
Qed.

(** X1: An output is collected exactly when it is an output of the build whose
    entry point is set, not empty, and among the requested ones. *)
Theorem collectEntrypoints_In (c : HtmlFileConfiguration)
  (mf : option Metafile) (a : Asset) :
  In a (collectEntrypoints c mf) <->
  In (path a, fields a) (outputs_of mf) /\
  exists e, entryPoint (fields a) = Some e /\ e <> [] /\
            In e (entryPoints c).
Proof.
  unfold collectEntrypoints. rewrite in_map_iff. split.
  - intros ([k o] & <- & H). apply filter_In in H as [H F]. simpl in *.
    split; [exact H|]. destruct (entryPoint o) as [e|]; [|discriminate].
    exists e. destruct e as [|x e]; [discriminate|].
    repeat split; [discriminate|]. now apply includes_In.
  - intros (H & e & E & Ne & I). exists (path a, fields a).
    split; [now destruct a|]. apply filter_In. split; [exact H|].
    simpl. rewrite E. destruct e as [|x e]; [contradiction|].
    now apply includes_In.
Qed.

(** X2: The order of the requested entry points, and an entry point requested
    twice, make no difference: the collected outputs come in the order of
    the metafile. *)
Theorem collectEntrypoints_request_order (c1 c2 : HtmlFileConfiguration)
  (mf : option Metafile) :
  (forall e, In e (entryPoints c1) <-> In e (entryPoints c2)) ->
  collectEntrypoints c1 mf = collectEntrypoints c2 mf.
Proof.
  intros H. unfold collectEntrypoints. f_equal. apply filter_ext.
  intros [k o]. simpl. destruct (entryPoint o) as [e|]; [|reflexivity].
  destruct (truthy e); [|reflexivity].
  destruct (includes (entryPoints c1) e) eqn:E1,
           (includes (entryPoints c2) e) eqn:E2; try reflexivity.
  - apply includes_In, H, includes_In in E1. congruence.
  - apply includes_In, H, includes_In in E2. congruence.
Qed.

Lemma collectEntrypoints_request_order_witness :
  collectEntrypoints
    (Scenario.page [lit "src/app.ts"; lit "src/app.css"] None)
    (Some Scenario.twin_build) =
  collectEntrypoints
    (Scenario.page [lit "src/app.css"; lit "src/app.ts"; lit "src/app.css"]
       None)
    (Some Scenario.twin_build).
Proof.
  apply collectEntrypoints_request_order. intros e. simpl. tauto.
Defined.

(** ** Escaped text as a pattern *)

Module Literal.
Import RegExp JSString StringFacts.

Lemma rmatch_literal (w : str) (k : mstate -> option mstate) (s : mstate) :
  rmatch (literal w) k s =
  if prefix_b w (m_rest s) then
    k (mkMState (m_pos s + length w) (skipn (length w) (m_rest s)) (m_caps s))
  else None.
Proof.
  revert s; induction w as [|c w IH]; intros [pos rest caps].
  - simpl. now rewrite Nat.add_0_r.
  - change (literal (c :: w)) with (RSeq (RChar c) (literal w)).
    cbn [rmatch]. unfold eat. cbn [m_rest m_pos m_caps].
    destruct rest as [|d rest].
    + reflexivity.
    + rewrite prefix_b_cons. destruct (Ascii.eqb c d); [|reflexivity].
      rewrite IH. cbn [m_rest m_pos m_caps andb length skipn].
      now rewrite Nat.add_succ_r.
Qed.

(** [exec] with a literal pattern is [indexOf], and captures nothing. *)
Lemma firstn_prefix (w x : str) :
  prefix_b w x = true -> firstn (length w) x = w.
Proof.
  intros E. apply prefix_b_true in E. rewrite E at 1.
  rewrite firstn_app, Nat.sub_diag, firstn_all. apply app_nil_r.
Qed.

(** [exec] with a literal pattern is [indexOf], and captures nothing. *)
Lemma exec_from_literal (w rest : str) (pos : nat) :
  exec_from (literal w) pos rest =
  match find_split w rest with
  | Some (p, _) => Some (mkMatch (pos + length p) w [])
  | None => None
  end.
Proof.
  revert pos; induction rest as [|c rest IH]; intros pos;
    cbn [exec_from]; rewrite rmatch_literal, find_split_eq;
    cbv beta iota delta [m_rest m_pos m_caps].
  - destruct w as [|d w]; [|reflexivity].
    cbn [prefix_b length]. rewrite firstn_nil. now rewrite !Nat.add_0_r.
  - destruct (prefix_b w (c :: rest)) eqn:E.
    + replace (pos + length w - pos) with (length w) by lia.
      rewrite (firstn_prefix _ _ E). cbn [length]. now rewrite Nat.add_0_r.
    + rewrite IH. destruct (find_split w rest) as [[p s]|]; [|reflexivity].
      cbn [length]. now rewrite Nat.add_succ_r.
Qed.

Lemma test_literal (w s : str) :
  test (literal w) s = true <-> occurs w s.
Proof.
  unfold test, exec. rewrite exec_from_literal.
  destruct (find_split w s) as [[p r]|] eqn:F.
  - split; [|reflexivity]. intros _. exists p, r. now apply find_split_Some.
  - split; [discriminate|]. intros H. apply find_split_None in F.
    contradiction.
Qed.

Lemma group_literal (w s n : str) :
  group (exec (literal w) s) n = None.
Proof.
  unfold exec. rewrite exec_from_literal.
  now destruct (find_split w s) as [[p r]|].
Qed.

Lemma regex_of_chars (text : str) :
  regex_of (map tok_of_char text) = literal text.
Proof.
  unfold regex_of, literal. f_equal. rewrite map_map. apply map_ext.
  intros c. unfold tok_of_char. now destruct (is_special c).
Qed.

Lemma create_escaped (text : str) :
  create (escapeRegExp text) = Ok (literal text).
Proof.
  destruct (Placeholders.escapeRegExp_tokens text) as (E & F & G).
  rewrite E, Patterns.create_tokens; [|exact F|rewrite G; constructor].
  now rewrite regex_of_chars.
Qed.

End Literal.

(** X3: Escaping makes a text a pattern for itself: [new RegExp] accepts the
    escaped text, whatever characters the text holds, and the expression
    matches the strings that contain the text, and no others. *)
Theorem escapeRegExp_matches_literally (text : str) :
  exists re,
    RegExp.create (escapeRegExp text) = Ok re /\
    forall s, RegExp.test re s = true <-> occurs text s.
Proof.
  exists (literal text). split.
  - apply Literal.create_escaped.
  - intros s. apply Literal.test_literal.
Qed.

(** X4: Escaping loses nothing: two texts with the same escaped form are the
    same text. *)
Theorem escapeRegExp_injective (a b : str) :
  escapeRegExp a = escapeRegExp b -> a = b.
Proof.
  revert b; induction a as [|c a IH]; intros [|d b] H.
  - reflexivity.
  - cbn in H. destruct (is_special d); discriminate.
  - cbn in H. destruct (is_special c); discriminate.
  - change (escapeRegExp (c :: a))
      with ((if is_special c then ["\"%char; c] else [c]) ++ escapeRegExp a)
      in H.
    change (escapeRegExp (d :: b))
      with ((if is_special d then ["\"%char; d] else [d]) ++ escapeRegExp b)
      in H.
    destruct (is_special c) eqn:Sc, (is_special d) eqn:Sd; cbn [app] in H.
    + injection H as -> H. f_equal. now apply IH.
    + injection H as <- _. rewrite Placeholders.special_backslash in Sd.
      discriminate.
    + injection H as -> _. rewrite Placeholders.special_backslash in Sc.
      discriminate.
    + injection H as -> H. f_equal. now apply IH.
Qed.

Lemma escapeRegExp_injective_witness : lit "a.b" = lit "a.b".
Proof. apply escapeRegExp_injective. reflexivity. Defined.

(** ** Naming templates and their patterns *)

Module Templates.
Import JSString StringFacts Occurrences.

Lemma occurs_In (m x : str) (c : ascii) : occurs m x -> In c m -> In c x.
Proof.
  intros (p & s & ->) H. apply in_or_app. right. apply in_or_app. now left.
Qed.

Lemma in_escapeRegExp (c : ascii) (text : str) :
  In c (escapeRegExp text) -> c = "\"%char \/ In c text.
Proof.
  unfold escapeRegExp. rewrite in_flat_map. intros (d & Hd & H).
  destruct (is_special d); simpl in H.
  - destruct H as [<-|[<-|[]]]; auto.
  - destruct H as [<-|[]]; auto.
Qed.

Lemma escapeRegExp_no_bracket (text : str) :
  ~ In "["%char text -> ~ In "["%char (escapeRegExp text).
Proof.
  intros H Hin. apply in_escapeRegExp in Hin as [E|Hin]; [discriminate|].
  contradiction.
Qed.

(** A text without an opening bracket holds no placeholder. *)
Lemma no_bracket_absent (m x : str) :
  In "["%char m -> ~ In "["%char x -> ~ occurs m x.
Proof. intros Hm Hx Ho. apply Hx. now apply (occurs_In m x). Qed.

Lemma prefix_b_no_bracket (r u w : str) :
  ~ In "["%char u -> prefix_b ("["%char :: r) (u ++ "\"%char :: w) = false.
Proof.
  intros H. destruct u as [|c u]; [reflexivity|].
  cbn [app]. rewrite prefix_b_cons.
  destruct (Ascii.eqb_spec "[" c) as [<-|_]; [|reflexivity].
  exfalso. apply H. now left.
Qed.

(** After a text without an opening bracket, an escaped placeholder is the
    first one. *)
Lemma find_split_at (r u v : str) :
  ~ In "["%char u ->
  find_split ("\"%char :: "["%char :: r)
    (u ++ ("\"%char :: "["%char :: r) ++ v) = Some (u, v).
Proof.
  intros H. induction u as [|c u IH].
  - apply (find_split_here ("\"%char :: "["%char :: r) v).
  - assert (Hu : ~ In "["%char u) by (intros Hin; apply H; now right).
    rewrite <- app_comm_cons, find_split_eq.
    assert (E : prefix_b ("\"%char :: "["%char :: r)
                  (c :: u ++ ("\"%char :: "["%char :: r) ++ v) = false).
    { rewrite prefix_b_cons.
      change (("\"%char :: "["%char :: r) ++ v)
        with ("\"%char :: ("["%char :: r) ++ v).
      rewrite (prefix_b_no_bracket _ u _ Hu). apply andb_false_r. }
    rewrite E, (IH Hu). reflexivity.
Qed.

Lemma replace_at (r u v tmpl : str) :
  ~ In "["%char u -> ~ In "$"%char tmpl ->
  replace ("\"%char :: "["%char :: r) tmpl
    (u ++ ("\"%char :: "["%char :: r) ++ v) = u ++ tmpl ++ v.
Proof.
  intros Hu Ht. apply replace_literal; [exact Ht|]. now apply find_split_at.
Qed.

(** A replacement steps over a text it does not occur in and a
    placeholder it cannot overlap. *)
Lemma replace_over (m n tmpl u v : str) :
  apart m n = true -> ~ occurs m u -> ~ In "$"%char tmpl ->
  replace m tmpl (u ++ n ++ v) = u ++ n ++ replace m tmpl v.
Proof.
  intros A Hu Ht. unfold replace.
  rewrite (find_split_across m n u v A).
  apply find_split_None in Hu. rewrite Hu.
  destruct (find_split m v) as [[p s]|]; [|reflexivity].
  rewrite !GetSubstitution_literal by exact Ht.
  now rewrite <- !app_assoc.
Qed.

End Templates.

Lemma brackets_in_needles :
  In "["%char (lit "\[hash\]") /\ In "["%char (lit "\[name\]") /\
  In "["%char (lit "\[dir\]") /\ In "["%char (lit "[name]") /\
  In "["%char (lit "[dir]").
Proof. simpl. tauto. Qed.

Lemma patterns_without_bracket (entryNames : str) :
  ~ In "["%char entryNames ->
  findVariablesRegexString entryNames = escapeRegExp entryNames /\
  forall name dir,
    findFilesWithSameVariablesRegexString entryNames name dir
      = escapeRegExp entryNames.
Proof.
  intros H. pose proof (Templates.escapeRegExp_no_bracket _ H) as He.
  destruct brackets_in_needles as (Bh & Bn & Bd & Rn & Rd).
  unfold findVariablesRegexString, findFilesWithSameVariablesRegexString.
  split; [|intros name dir].
  - rewrite (StringFacts.replace_absent (lit "\[hash\]"))
      by (now apply Templates.no_bracket_absent).
    rewrite (StringFacts.replace_absent (lit "\[name\]"))
      by (now apply Templates.no_bracket_absent).
    now rewrite (StringFacts.replace_absent (lit "\[dir\]"))
      by (now apply Templates.no_bracket_absent).
  - rewrite (StringFacts.replace_absent (lit "[name]"))
      by (now apply Templates.no_bracket_absent).
    rewrite (StringFacts.replace_absent (lit "[dir]"))
      by (now apply Templates.no_bracket_absent).
    now rewrite (StringFacts.replace_absent (lit "\[hash\]"))
      by (now apply Templates.no_bracket_absent).
Qed.

Section TemplateSearch.

Context {P : PathModule}.

(** X5: A naming template without an opening bracket holds no placeholder:
    the outputs found are those whose path contains the template as it is
    written, whatever the anchor. *)
Theorem template_without_placeholder (entrypoint : Asset)
  (mf : option Metafile) (entryNames : str) :
  truthy entryNames = true ->
  ~ In "["%char entryNames ->
  exists l,
    findNameRelatedOutputFiles entrypoint mf (Some entryNames) = Ok l /\
    forall a, In a l <->
              In (path a, fields a) (outputs_of mf) /\
              occurs entryNames (path a).
Proof.
  intros T H. destruct (patterns_without_bracket entryNames H) as [E1 E2].
  exists (map flatten
            (filter (fun kv => RegExp.test (literal entryNames) (fst kv))
               (outputs_of mf))).
  split.
  - unfold findNameRelatedOutputFiles. cbn [truthy_opt or_empty].
    rewrite T, E1, Literal.create_escaped. cbn [bind].
    rewrite (filterM_total _
               (fun kv => RegExp.test (literal entryNames) (fst kv)));
      [reflexivity|].
    intros kv. now rewrite E2, Literal.create_escaped.
  - intros a. rewrite in_map_iff. split.
    + intros ([k o] & <- & F). apply filter_In in F as [F M].
      split; [exact F|]. now apply Literal.test_literal.
    + intros [F M]. exists (path a, fields a). split; [now destruct a|].
      apply filter_In. split; [exact F|]. now apply Literal.test_literal.
Qed.

End TemplateSearch.

Lemma template_without_placeholder_witness :
  exists l,
    @findNameRelatedOutputFiles Scenario.P0 Scenario.plain_anchor
      (Some Scenario.plain_build) (Some (lit "out/app")) = Ok l /\
    forall a, In a l <->
              In (path a, fields a) (outputs_of (Some Scenario.plain_build)) /\
              occurs (lit "out/app") (path a).
Proof.
  apply (@template_without_placeholder Scenario.P0).
  - reflexivity.
  - not_in_literal.
Defined.

(** X6: For a template of the form a[dir]b[name]c[hash]d, with no opening
    bracket in a, b, c and d, the pattern the captures are read with is the
    four texts, escaped, with the groups for dir, name and hash between
    them, and [new RegExp] accepts it. *)
Theorem pattern_of_template (a b c d : str) :
  ~ In "["%char a -> ~ In "["%char b ->
  ~ In "["%char c -> ~ In "["%char d ->
  findVariablesRegexString
    (a ++ lit "[dir]" ++ b ++ lit "[name]" ++ c ++ lit "[hash]" ++ d) =
    escapeRegExp a ++ REGEXES.DIR_REGEX ++
    escapeRegExp b ++ REGEXES.NAME_REGEX ++
    escapeRegExp c ++ REGEXES.HASH_REGEX ++ escapeRegExp d /\
  RegExp.create
    (findVariablesRegexString
       (a ++ lit "[dir]" ++ b ++ lit "[name]" ++ c ++ lit "[hash]" ++ d)) =
    Ok (regex_of (template_items a b c d)).
Proof.
  intros Ha Hb Hc Hd.
  pose proof (Templates.escapeRegExp_no_bracket _ Ha) as Ea.
  pose proof (Templates.escapeRegExp_no_bracket _ Hb) as Eb.
  pose proof (Templates.escapeRegExp_no_bracket _ Hc) as Ec.
  destruct brackets_in_needles as (Bh & Bn & Bd & _ & _).
  assert (S : findVariablesRegexString
                (a ++ lit "[dir]" ++ b ++ lit "[name]" ++ c ++ lit "[hash]"
                   ++ d) =
              escapeRegExp a ++ REGEXES.DIR_REGEX ++
              escapeRegExp b ++ REGEXES.NAME_REGEX ++
              escapeRegExp c ++ REGEXES.HASH_REGEX ++ escapeRegExp d).
  { unfold findVariablesRegexString.
    rewrite !Occurrences.escapeRegExp_app.
    change (escapeRegExp (lit "[dir]")) with (lit "\[dir\]").
    change (escapeRegExp (lit "[name]")) with (lit "\[name\]").
    change (escapeRegExp (lit "[hash]")) with (lit "\[hash\]").
    rewrite (Templates.replace_over (lit "\[hash\]") (lit "\[dir\]"));
      [|reflexivity|now apply Templates.no_bracket_absent|not_in_literal].
    rewrite (Templates.replace_over (lit "\[hash\]") (lit "\[name\]"));
      [|reflexivity|now apply Templates.no_bracket_absent|not_in_literal].
    rewrite (Templates.replace_at (lit "hash\]") _ _ _ Ec);
      [|not_in_literal].
    rewrite (Templates.replace_over (lit "\[name\]") (lit "\[dir\]"));
      [|reflexivity|now apply Templates.no_bracket_absent|not_in_literal].
    rewrite (Templates.replace_at (lit "name\]") _ _ _ Eb);
      [|not_in_literal].
    rewrite (Templates.replace_at (lit "dir\]") _ _ _ Ea);
      [|not_in_literal].
    reflexivity. }
  split; [exact S|]. rewrite S.
  destruct (Placeholders.escapeRegExp_tokens a) as (Ta & Fa & Ga).
  destruct (Placeholders.escapeRegExp_tokens b) as (Tb & Fb & Gb).
  destruct (Placeholders.escapeRegExp_tokens c) as (Tc & Fc & Gc).
  destruct (Placeholders.escapeRegExp_tokens d) as (Td & Fd & Gd).
  assert (R : render (template_items a b c d) =
              escapeRegExp a ++ REGEXES.DIR_REGEX ++
              escapeRegExp b ++ REGEXES.NAME_REGEX ++
              escapeRegExp c ++ REGEXES.HASH_REGEX ++ escapeRegExp d).
  { unfold template_items.
    rewrite Placeholders.render_app. rewrite <- Ta. f_equal.
    change (render (TGroup GDir :: ?l)) with (REGEXES.DIR_REGEX ++ render l).
    f_equal. rewrite Placeholders.render_app, <- Tb. f_equal.
    change (render (TGroup GName :: ?l)) with (REGEXES.NAME_REGEX ++ render l).
    f_equal. rewrite Placeholders.render_app, <- Tc. f_equal.
    change (render (TGroup GHash :: ?l)) with (REGEXES.HASH_REGEX ++ render l).
    now rewrite <- Td. }
  rewrite <- R. apply Patterns.create_tokens.
  - unfold template_items.
    repeat (apply Forall_app; split; [assumption|];
            apply Forall_cons; [exact I|]).
    assumption.
  - unfold template_items.
    rewrite !Placeholders.groups_of_app. cbn [groups_of].
    rewrite !Placeholders.groups_of_app. cbn [groups_of].
    rewrite !Placeholders.groups_of_app. cbn [groups_of].
    rewrite Ga, Gb, Gc, Gd. cbn [app].
    repeat constructor; simpl; intuition discriminate.
Qed.

Lemma pattern_of_template_witness :
  findVariablesRegexString (lit "[dir]/[name]-[hash]") =
    lit "(?<dir>\S+\/?)/(?<name>[^\s\/]+)\-(?<hash>[A-Z2-7]{8})" /\
  RegExp.create (findVariablesRegexString (lit "[dir]/[name]-[hash]")) =
    Ok (regex_of (template_items [] (lit "/") (lit "-") [])).
Proof.
  apply (pattern_of_template [] (lit "/") (lit "-") []); not_in_literal.
Defined.

(** ** Related outputs *)

Section Related.

Context {P : PathModule}.

(** X7: The search for related outputs never throws, and what it returns are
    outputs of the build, in the order of the metafile, chosen by their
    path alone. *)
Theorem related_files_are_selected_outputs (entrypoint : Asset)
  (mf : option Metafile) (entryNames : option str) :
  exists f : str -> bool,
    findNameRelatedOutputFiles entrypoint mf entryNames =
      Ok (map flatten (filter (fun kv => f (fst kv)) (outputs_of mf))).
Proof.
  destruct (truthy_opt entryNames) eqn:T.
  - destruct entryNames as [en|]; [|discriminate].
    destruct (findNameRelatedOutputFiles_templated entrypoint mf en T)
      as (re1 & re2 & _ & _ & H).
    exists (RegExp.test re2). exact H.
  - exists (fun k =>
              str_eqb (name (parse k)) (name (parse (path entrypoint)))
              && str_eqb (dir (parse k)) (dir (parse (path entrypoint)))).
    unfold findNameRelatedOutputFiles. now rewrite T.
Qed.

(** X8: Without a naming template (none, or the empty string) an output is
    related to the anchor exactly when [path.parse] gives both the same
    [name] and the same [dir]; the anchor is one of them when it is an
    output of the build. *)
Theorem related_without_template (entrypoint : Asset)
  (mf : option Metafile) (entryNames : option str) :
  truthy_opt entryNames = false ->
  exists l,
    findNameRelatedOutputFiles entrypoint mf entryNames = Ok l /\
    (forall a, In a l <->
       In (path a, fields a) (outputs_of mf) /\
       name (parse (path a)) = name (parse (path entrypoint)) /\
       dir (parse (path a)) = dir (parse (path entrypoint))) /\
    (In (path entrypoint, fields entrypoint) (outputs_of mf) ->
     In entrypoint l).
Proof.
  intros T. unfold findNameRelatedOutputFiles. rewrite T.
  eexists. split; [reflexivity|].
  assert (M : forall a,
    In a (map flatten
            (filter
               (fun kv =>
                  str_eqb (name (parse (fst kv)))
                    (name (parse (path entrypoint)))
                  && str_eqb (dir (parse (fst kv)))
                       (dir (parse (path entrypoint))))
               (outputs_of mf))) <->
    In (path a, fields a) (outputs_of mf) /\
    name (parse (path a)) = name (parse (path entrypoint)) /\
    dir (parse (path a)) = dir (parse (path entrypoint))).
  { intros a. rewrite in_map_iff. split.
    - intros ([k o] & <- & F). apply filter_In in F as [F E].
      apply andb_true_iff in E as [E1 E2].
      apply str_eqb_eq in E1, E2. now repeat split.
    - intros (F & E1 & E2). exists (path a, fields a).
      split; [now destruct a|]. apply filter_In. split; [exact F|].
      cbn [fst]. rewrite E1, E2. now rewrite !str_eqb_refl. }
  split; [exact M|]. intros H. apply M. now repeat split.
Qed.

End Related.

Lemma related_without_template_witness :
  exists l,
    @findNameRelatedOutputFiles Scenario.P0 Scenario.plain_anchor
      (Some Scenario.plain_build) None = Ok l /\
    In Scenario.plain_anchor l.
Proof.
  destruct (@related_without_template Scenario.P0 Scenario.plain_anchor
              (Some Scenario.plain_build) None eq_refl) as (l & E & _ & H).
  exists l. split; [exact E|]. apply H. left. reflexivity.
Defined.

(** ** Groups of collected outputs *)

Lemma anchored_set (k : str) (a : Asset) (m : JSMap.t Asset) :
  anchored k m -> anchored k (JSMap.set (path a) a m).
Proof.
  intros (W & v & rest & ->). split; [now apply MapFacts.well_keyed_set|].
  cbn [JSMap.set]. destruct (str_eqb (path a) k) eqn:E.
  - apply str_eqb_eq in E. rewrite E. eauto.
  - eauto.
Qed.

Lemma anchored_fold (k : str) (items : list Asset) (m : JSMap.t Asset) :
  anchored k m ->
  anchored k (fold_left (fun m item => JSMap.set (path item) item m) items m).
Proof.
  revert m; induction items as [|a items IH]; intros m H; [exact H|].
  cbn [fold_left]. now apply IH, anchored_set.
Qed.

Lemma anchored_head (k : str) (m : JSMap.t Asset) :
  anchored k m ->
  exists a rest, JSMap.values m = a :: rest /\ path a = k.
Proof.
  intros (W & v & rest & ->). exists v, (JSMap.values rest).
  split; [reflexivity|]. now inversion W.
Qed.

Section Groups.

Context {P : PathModule}.

Lemma relatedOutputFiles_anchored (c : HtmlFileConfiguration)
  (mf : option Metafile) (entryNames : option str) (e : Asset) :
  exists m,
    relatedOutputFiles c mf entryNames e = Ok m /\ anchored (path e) m.
Proof.
  unfold relatedOutputFiles. cbn [object_truthy negb].
  assert (A0 : anchored (path e) (JSMap.set (path e) e [])).
  { split; [apply MapFacts.well_keyed_set; constructor|]. cbn. eauto. }
  set (m0 := JSMap.set (path e) e []) in *.
  set (m1 := if flag (findRelatedCssFiles c) then _ else m0).
  assert (A1 : anchored (path e) m1).
  { subst m1. destruct (flag (findRelatedCssFiles c)); [|exact A0].
    destruct (truthy_opt (cssBundle (fields e))); [|exact A0].
    apply (anchored_set (path e)
             (mkAsset (or_empty (cssBundle (fields e))) (mkOutput None None))
             m0 A0). }
  destruct (flag (findRelatedOutputFiles c)).
  - destruct (findNameRelatedOutputFiles_total e mf entryNames) as [items ->].
    cbn [bind]. eexists. split; [reflexivity|]. now apply anchored_fold.
  - now exists m1.
Qed.

(** X9: The outputs passed to the injection are made of one group per
    collected entry point, in their order, and each group starts with the
    path of its entry point. *)
Theorem groups_start_with_their_entry_point (c : HtmlFileConfiguration)
  (mf : option Metafile) (entryNames : option str) (eps : list Asset) :
  exists groups,
    Forall2
      (fun e m =>
         relatedOutputFiles c mf entryNames e = Ok m /\
         exists a rest, JSMap.values m = a :: rest /\ path a = path e)
      eps groups /\
    collectOutputFiles c mf entryNames eps [] =
      Ok (concat (map JSMap.values groups)).
Proof.
  assert (G : forall acc, exists groups,
    Forall2
      (fun e m =>
         relatedOutputFiles c mf entryNames e = Ok m /\
         exists a rest, JSMap.values m = a :: rest /\ path a = path e)
      eps groups /\
    collectOutputFiles c mf entryNames eps acc =
      Ok (acc ++ concat (map JSMap.values groups))).
  { induction eps as [|e eps IH]; intros acc.
    - exists []. split; [constructor|]. simpl. now rewrite app_nil_r.
    - destruct (relatedOutputFiles_anchored c mf entryNames e) as (m & R & A).
      destruct (IH (acc ++ JSMap.values m)) as (groups & F & E).
      exists (m :: groups). split.
      + constructor; [|exact F]. split; [exact R|]. now apply anchored_head.
      + cbn [collectOutputFiles]. rewrite R. cbn [bind]. rewrite E.
        cbn [map concat]. now rewrite <- app_assoc. }
  apply (G []).
Qed.

(** X10: With one collected entry point no path is passed to the injection
    twice, and the first one is the path of the entry point. *)
Theorem single_entry_point_has_no_duplicates (c : HtmlFileConfiguration)
  (mf : option Metafile) (entryNames : option str) (e : Asset) :
  exists a l,
    collectOutputFiles c mf entryNames [e] [] = Ok (a :: l) /\
    path a = path e /\ NoDup (map path (a :: l)).
Proof.
  destruct (relatedOutputFiles_group c mf entryNames e) as (m & R & N & _).
  destruct (relatedOutputFiles_anchored c mf entryNames e) as (m' & R' & A).
  rewrite R in R'. injection R' as <-.
  destruct (anchored_head _ _ A) as (a & rest & V & Ea).
  exists a, rest. cbn [collectOutputFiles]. rewrite R. cbn [bind app].
  rewrite V in *. repeat split; assumption.
Qed.

(** X11: When the page does not ask for the search by name, the group of
    an entry point does not depend on the other outputs nor on the naming
    template of the build. With the key [findRelatedCssFiles] left out the
    default applies and the group is the entry point and its style sheet
    bundle (a bundle with the path of the entry point takes its place);
    with the key present and [undefined] the default is overridden and the
    group is the entry point alone. *)
Theorem default_group_is_entry_point_and_bundle (c : HtmlFileConfiguration)
  (mf : option Metafile) (entryNames : option str) (e : Asset) :
  findRelatedOutputFiles c = None ->
  (findRelatedCssFiles c = None ->
   exists m,
     relatedOutputFiles (setDefaults c) mf entryNames e = Ok m /\
     JSMap.values m = bundle_group e) /\
  (findRelatedCssFiles c = Some None ->
   exists m,
     relatedOutputFiles (setDefaults c) mf entryNames e = Ok m /\
     JSMap.values m = [e]).
Proof.
  intros Ho. unfold relatedOutputFiles, setDefaults, bundle_group.
  cbn [object_truthy negb findRelatedCssFiles findRelatedOutputFiles].
  rewrite Ho. split; intros Hc; rewrite Hc; cbn [flag].
  - eexists. split; [reflexivity|].
    destruct (cssBundle (fields e)) as [css|]; cbn [truthy_opt or_empty];
      [|reflexivity].
    destruct (truthy css); [|reflexivity].
    cbn [JSMap.set]. now destruct (str_eqb css (path e)).
  - eexists. split; reflexivity.
Qed.

End Groups.

Lemma default_group_is_entry_point_and_bundle_witness :
  (exists m,
     @relatedOutputFiles Scenario.P0 (setDefaults Scenario.bare_page)
       (Some Scenario.hashed_build) (Some (lit "[dir]/[name]-[hash]"))
       Scenario.bundled = Ok m /\
     JSMap.values m =
       [Scenario.bundled;
        mkAsset (lit "out/app.css") (mkOutput None None)]) /\
  (exists m,
     @relatedOutputFiles Scenario.P0 (setDefaults Scenario.undefined_css_page)
       (Some Scenario.hashed_build) (Some (lit "[dir]/[name]-[hash]"))
       Scenario.bundled = Ok m /\
     JSMap.values m = [Scenario.bundled]).
Proof.
  split.
  - apply (@default_group_is_entry_point_and_bundle Scenario.P0
             Scenario.bare_page); reflexivity.
  - apply (@default_group_is_entry_point_and_bundle Scenario.P0
             Scenario.undefined_css_page); reflexivity.
Defined.

(** ** Tags *)

Section Tags.

Context {P : PathModule}.

Lemma inject_no_tags (template : str) (assets : list Asset) (outDir : str)
  (publicPath : option str) (c : HtmlFileConfiguration) :
  elementsStringToInject assets outDir publicPath c = [] ->
  injectFilesToHtmlTemplate template assets outDir publicPath c = template.
Proof.
  intros H. unfold injectFilesToHtmlTemplate, JSString.replace.
  rewrite H, app_nil_r.
  destruct (JSString.find_split (lit "</title>") template) as [[p s]|] eqn:F;
    [|reflexivity].
  rewrite StringFacts.GetSubstitution_literal by not_in_literal.
  symmetry. now apply StringFacts.find_split_Some.
Qed.

Lemma str_eqb_neq (a b : str) : a <> b -> str_eqb a b = false.
Proof.
  intros H. destruct (str_eqb a b) eqn:E; [|reflexivity].
  now apply str_eqb_eq in E.
Qed.

(** X12: Outputs that are neither [.js] nor [.css] files leave the page as it
    is, with or without a title in it. *)
Theorem other_extensions_are_ignored (template : str) (assets : list Asset)
  (outDir : str) (publicPath : option str) (c : HtmlFileConfiguration) :
  Forall (fun a => ext (parse (path a)) <> lit ".js" /\
                   ext (parse (path a)) <> lit ".css") assets ->
  injectFilesToHtmlTemplate template assets outDir publicPath c = template.
Proof.
  intros H. apply inject_no_tags.
  rewrite elementsStringToInject_concat.
  induction H as [|a l [H1 H2] _ IH]; [reflexivity|].
  cbn [map concat]. rewrite IH, app_nil_r.
  unfold elementsOf, scriptElement, linkCssElement.
  now rewrite (str_eqb_neq _ _ H1), (str_eqb_neq _ _ H2).
Qed.

(** X13: On a platform whose separator is not the slash, the joined path holds
    no separator of the platform. *)
Theorem posixJoin_has_no_separator (paths : list str) :
  sep <> "/"%char -> ~ In sep (posixJoin paths).
Proof.
  intros H. unfold posixJoin.
  destruct (Ascii.eqb_spec sep "/") as [E|_]; [contradiction|].
  rewrite in_map_iff. intros (x & E & _).
  destruct (Ascii.eqb x sep) eqn:Q.
  - now apply H.
  - apply Ascii.eqb_neq in Q. now apply Q.
Qed.

End Tags.

Lemma other_extensions_are_ignored_witness :
  @injectFilesToHtmlTemplate Scenario.P0
    (lit "<head><title>T</title></head>")
    [Scenario.notes; Scenario.app_map] (lit "out") None
    (Scenario.page [] None) = lit "<head><title>T</title></head>".
Proof.
  apply (@other_extensions_are_ignored Scenario.P0).
  repeat constructor; discriminate.
Defined.

Lemma posixJoin_has_no_separator_witness :
  ~ In "\"%char (@posixJoin Scenario.P_backslash [lit "out"; lit "a\b.html"]).
Proof.
  apply (@posixJoin_has_no_separator Scenario.P_backslash). discriminate.
Defined.

(** ** Pages *)

Section Pages.

Context {P : PathModule}.
Variable existsSync : str -> bool.
Variable readFile : str -> result str.
Variable lodashTemplate : str -> list (str * str) -> result str.

Local Notation "'render_page'" :=
  (renderTemplate existsSync readFile lodashTemplate).
Local Notation "'process_page'" :=
  (processHtmlFile existsSync readFile lodashTemplate).

(** The outputs of a page are always collected; what is left of a turn of
    the loop is the rendering and the injection. *)
Lemma processHtmlFile_rendered (options : BuildOptions)
  (mf : option Metafile) (c : HtmlFileConfiguration) (o : str) :
  outdir options = Some o ->
  exists l,
    process_page options mf c =
      (t <- render_page c ;;
       Ok (posixJoin [o; filename c],
           injectFilesToHtmlTemplate t l o (publicPath options) c)).
Proof.
  intros Ho. unfold processHtmlFile.
  destruct (collectOutputFiles_groups c mf (entryNames options)
              (collectEntrypoints c mf) []) as (groups & _ & E).
  rewrite E. cbn [bind app]. exists (concat (map JSMap.values groups)).
  destruct (render_page c); [|reflexivity]. cbn [bind]. now rewrite Ho.
Qed.

(** X15: A page on the built-in template gets no tag: the template has no
    title, so the file written is the template as it is. *)
Theorem default_template_gets_no_tags (options : BuildOptions)
  (mf : option Metafile) (c : HtmlFileConfiguration) (o : str) :
  outdir options = Some o ->
  htmlTemplate c = None ->
  define c = None ->
  process_page options mf c =
    Ok (posixJoin [o; filename c], defaultHtmlTemplate).
Proof.
  intros Ho Ht Hd.
  destruct (processHtmlFile_rendered options mf c o Ho) as [l ->].
  unfold renderTemplate. rewrite Ht, Hd. cbn [bind truthy].
  assert (E : injectFilesToHtmlTemplate defaultHtmlTemplate l o
                (publicPath options) c = defaultHtmlTemplate).
  { unfold injectFilesToHtmlTemplate.
    apply StringFacts.replace_absent, StringFacts.find_split_None.
    reflexivity. }
  now rewrite E.
Qed.

(** X16: An empty template, given as text or read from a file, counts as no
    template: the built-in one is rendered. *)
Theorem empty_template_falls_back (c : HtmlFileConfiguration) :
  htmlTemplate c = Some [] \/
  (exists t, htmlTemplate c = Some t /\ existsSync t = true /\
             readFile t = Ok []) ->
  render_page c =
    match define c with
    | None => Ok defaultHtmlTemplate
    | Some d => lodashTemplate defaultHtmlTemplate d
    end.
Proof.
  unfold renderTemplate. intros [H|(t & H & E & R)]; rewrite H.
  - reflexivity.
  - destruct t as [|x t]; [reflexivity|].
    cbn [truthy andb]. rewrite E, R. reflexivity.
Qed.

(** X19: The metafile is asked for by [onStart] alone. The loop of [onEnd]
    does not look at the option: without a metafile no output is collected
    and the content handed to the write is the rendered template, as it
    is. *)
Theorem metafile_is_required_by_onStart_only (options : BuildOptions)
  (c : HtmlFileConfiguration) (o : str) :
  (metafile options = false ->
   onStart options = Throw (Error (lit "metafile is not enabled"))) /\
  (outdir options = Some o ->
   process_page options None c =
     (t <- render_page c ;; Ok (posixJoin [o; filename c], t))).
Proof.
  split.
  - intros H. unfold onStart. now rewrite H.
  - intros Ho. unfold processHtmlFile. cbn [collectEntrypoints outputs_of
      filter map collectOutputFiles bind].
    destruct (render_page c) as [t|e]; [|reflexivity]. cbn [bind].
    rewrite Ho. now rewrite inject_no_tags.
Qed.

End Pages.

Lemma default_template_gets_no_tags_witness :
  @processHtmlFile Scenario.P0 Scenario.no_file Scenario.unreadable
    Scenario.no_engine Scenario.options (Some Scenario.app_build)
    Scenario.bare_page
    = Ok (lit "out/index.html", defaultHtmlTemplate).
Proof.
  apply (@default_template_gets_no_tags Scenario.P0 Scenario.no_file
           Scenario.unreadable Scenario.no_engine Scenario.options
           (Some Scenario.app_build) Scenario.bare_page (lit "out"));
    reflexivity.
Defined.

Lemma empty_template_falls_back_witness :
  renderTemplate Scenario.no_file Scenario.unreadable Scenario.no_engine
    Scenario.empty_page = Ok defaultHtmlTemplate.
Proof.
  apply (empty_template_falls_back Scenario.no_file Scenario.unreadable
           Scenario.no_engine Scenario.empty_page).
  left. reflexivity.
Defined.

Lemma metafile_is_required_by_onStart_only_witness :
  onStart Scenario.no_metafile
    = Throw (Error (lit "metafile is not enabled")) /\
  @processHtmlFile Scenario.P0 Scenario.no_file Scenario.unreadable
    Scenario.no_engine Scenario.options None
    (Scenario.page [lit "src/app.ts"] None)
    = Ok (lit "out/index.html", lit "<head><title>T</title></head>").
Proof.
  destruct (@metafile_is_required_by_onStart_only Scenario.P0
              Scenario.no_file Scenario.unreadable Scenario.no_engine
              Scenario.no_metafile (Scenario.page [lit "src/app.ts"] None)
              (lit "out")) as [H _].
  destruct (@metafile_is_required_by_onStart_only Scenario.P0
              Scenario.no_file Scenario.unreadable Scenario.no_engine
              Scenario.options (Scenario.page [lit "src/app.ts"] None)
              (lit "out")) as [_ H'].
  split; [apply H; reflexivity | apply H'; reflexivity].
Defined.

(** ** Turns of the loop *)

Section Turns.

Context {P : PathModule}.
Variable FS : Type.
Variable existsSync : FS -> str -> bool.
Variable readFile : FS -> str -> result str.
Variable lodashTemplate : str -> list (str * str) -> result str.
Variable mkdir : FS -> str -> FS * option error.
Variable writeFile : FS -> str -> str -> FS * option error.
Variable stat : FS -> str -> result nat.

Local Notation "'on_end'" :=
  (onEnd FS existsSync readFile lodashTemplate mkdir writeFile stat).
Local Notation "'write_page'" := (writeHtmlFile FS mkdir writeFile stat).

(** X14: With an output directory, a turn of the loop of [onEnd] fails only
    where the template is read and rendered, or where the page is written
    ([mkdir], [writeFile], [stat]): the outputs are always collected, and
    the turn is the rendering followed by the write of the page with the
    tags of those outputs. *)
Theorem turn_fails_only_in_rendering_or_writing (options : BuildOptions)
  (mf : option Metafile) (c : HtmlFileConfiguration) (o : str) (fs : FS) :
  outdir options = Some o ->
  exists l,
    collectOutputFiles c mf (entryNames options) (collectEntrypoints c mf) []
      = Ok l /\
    on_end options mf [c] fs =
      match renderTemplate (existsSync fs) (readFile fs) lodashTemplate c with
      | Throw e => (fs, Some e)
      | Ok t =>
          write_page fs (posixJoin [o; filename c])
            (injectFilesToHtmlTemplate t l o (publicPath options) c)
      end.
Proof.
  intros Ho.
  destruct (collectOutputFiles_groups c mf (entryNames options)
              (collectEntrypoints c mf) []) as (groups & _ & E).
  exists (concat (map JSMap.values groups)). split; [exact E|].
  cbn [onEnd]. unfold processHtmlFile. rewrite E. cbn [bind app].
  destruct (renderTemplate (existsSync fs) (readFile fs) lodashTemplate c)
    as [t|e]; [|reflexivity].
  cbn [bind]. rewrite Ho.
  destruct (write_page fs (posixJoin [o; filename c])
              (injectFilesToHtmlTemplate t (concat (map JSMap.values groups))
                 o (publicPath options) c)) as [fs' [e|]]; reflexivity.
Qed.

(** X17: [onEnd] over two lists of pages, one after the other: the pages of
    the second list are processed only when no page of the first failed,
    and from the state of the file system that the first list left. *)
Theorem onEnd_app (options : BuildOptions) (mf : option Metafile)
  (a b : list HtmlFileConfiguration) (fs : FS) :
  on_end options mf (a ++ b) fs =
  let (fs1, e) := on_end options mf a fs in
  match e with
  | Some e => (fs1, Some e)
  | None => on_end options mf b fs1
  end.
Proof.
  revert fs; induction a as [|c a IH]; intros fs; cbn [app onEnd].
  - reflexivity.
  - destruct (processHtmlFile (existsSync fs) (readFile fs) lodashTemplate
                options mf c) as [[out html]|e]; [|reflexivity].
    destruct (write_page fs out html) as [fs' [e|]]; [reflexivity|].
    apply IH.
Qed.

(** X18: When [onEnd] ends with an error, the configured pages split into
    the pages before a page [c], which were all processed without an error,
    the page [c], whose turn raised the error, and the pages after it,
    which were not touched: the state of the file system is the one that
    the turn of [c] left. *)
Theorem onEnd_stops_at_first_failure (options : BuildOptions)
  (mf : option Metafile) (files : list HtmlFileConfiguration)
  (fs fs' : FS) (e : error) :
  on_end options mf files fs = (fs', Some e) ->
  exists done c rest fs1,
    files = done ++ c :: rest /\
    on_end options mf done fs = (fs1, None) /\
    on_end options mf [c] fs1 = (fs', Some e).
Proof.
  revert fs; induction files as [|c files IH]; intros fs H.
  - discriminate.
  - cbn [onEnd] in H.
    destruct (processHtmlFile (existsSync fs) (readFile fs) lodashTemplate
                options mf c) as [[out html]|e0] eqn:Q.
    + destruct (write_page fs out html) as [fs2 [e1|]] eqn:W.
      * exists [], c, files, fs. repeat split.
        cbn [onEnd]. now rewrite Q, W.
      * destruct (IH fs2 H) as (done & c' & rest & fs1 & -> & D & T).
        exists (c :: done), c', rest, fs1. repeat split; [|exact T].
        cbn [onEnd]. now rewrite Q, W.
    + exists [], c, files, fs. repeat split.
      cbn [onEnd]. now rewrite Q.
Qed.

End Turns.

Lemma turn_fails_only_in_rendering_or_writing_witness :
  @onEnd Scenario.P0 Scenario.disk Scenario.disk_exists Scenario.disk_read
    Scenario.no_engine Scenario.disk_mkdir Scenario.disk_write
    Scenario.disk_stat Scenario.options (Some Scenario.app_build)
    [Scenario.nameless_page] Scenario.built_disk
    = (Scenario.built_disk, Some (HostError (lit "EISDIR"))).
Proof.
  destruct (@turn_fails_only_in_rendering_or_writing Scenario.P0
              Scenario.disk Scenario.disk_exists Scenario.disk_read
              Scenario.no_engine Scenario.disk_mkdir Scenario.disk_write
              Scenario.disk_stat Scenario.options (Some Scenario.app_build)
              Scenario.nameless_page (lit "out") Scenario.built_disk eq_refl)
    as (l & _ & H).
  rewrite H. reflexivity.
Defined.

Lemma onEnd_stops_at_first_failure_witness :
  exists done c rest fs1,
    [Scenario.bare_page; Scenario.nameless_page; Scenario.raw_page]
      = done ++ c :: rest /\
    @onEnd Scenario.P0 Scenario.disk Scenario.disk_exists Scenario.disk_read
      Scenario.no_engine Scenario.disk_mkdir Scenario.disk_write
      Scenario.disk_stat Scenario.options (Some Scenario.app_build) done
      Scenario.built_disk = (fs1, None) /\
    @onEnd Scenario.P0 Scenario.disk Scenario.disk_exists Scenario.disk_read
      Scenario.no_engine Scenario.disk_mkdir Scenario.disk_write
      Scenario.disk_stat Scenario.options (Some Scenario.app_build) [c] fs1
      = (Scenario.built_disk ++ [(lit "out/index.html", defaultHtmlTemplate)],
         Some (HostError (lit "EISDIR"))).
Proof.
  apply (@onEnd_stops_at_first_failure Scenario.P0 Scenario.disk
           Scenario.disk_exists Scenario.disk_read Scenario.no_engine
           Scenario.disk_mkdir Scenario.disk_write Scenario.disk_stat
           Scenario.options (Some Scenario.app_build)
           [Scenario.bare_page; Scenario.nameless_page; Scenario.raw_page]
           Scenario.built_disk).
  reflexivity.
Defined.

(** ** A placeholder written twice *)

Module Once.
Import JSString StringFacts Occurrences.

(** The first of two occurrences: nothing of [n] before it, and the other
    occurrence after it. *)
Lemma first_of_two (n x : str) :
  n <> [] -> occurs_twice n x ->
  exists p s, find_split n x = Some (p, s) /\ ~ occurs n p /\ occurs n s.
Proof.
  intros Hn (u & v & w & ->).
  destruct (find_split_occurs n (u ++ n ++ v ++ n ++ w)) as (p & s & F);
    [now exists u, (v ++ n ++ w)|].
  exists p, s. split; [exact F|].
  pose proof (find_split_least _ _ _ _ F) as L.
  pose proof (find_split_Some _ _ _ _ F) as E. split.
  - intros (p1 & p2 & ->).
    specialize (L p1 (p2 ++ n ++ s)).
    rewrite <- !app_assoc in E. specialize (L E).
    rewrite !length_app in L. destruct n; [contradiction|simpl in L; lia].
  - specialize (L u (v ++ n ++ w) eq_refl).
    assert (E' : (u ++ n) ++ v ++ n ++ w = (p ++ n) ++ s)
      by (now rewrite <- !app_assoc).
    apply app_eq_app in E' as [l [[E1 E2]|[E1 E2]]].
    + exists (l ++ v), w. rewrite E2. now rewrite <- !app_assoc.
    + assert (l = []).
      { apply (f_equal (@length ascii)) in E1.
        rewrite !length_app in E1.
        destruct l; [reflexivity|simpl in E1; lia]. }
      subst l. simpl in E2. subst s. now exists v, w.
Qed.

(** An occurrence of [m] in a text around [n], which it cannot overlap,
    lies before [n] or after it. *)
Lemma occurs_across (m n u v : str) :
  apart m n = true -> occurs m (u ++ n ++ v) -> occurs m u \/ occurs m v.
Proof.
  intros A H. apply find_split_occurs in H as (p & s & F).
  rewrite (find_split_across m n u v A) in F.
  destruct (find_split m u) as [[p1 s1]|] eqn:Fu.
  - left. exists p1, s1. now apply find_split_Some.
  - destruct (find_split m v) as [[p1 s1]|] eqn:Fv; [|discriminate].
    right. exists p1, s1. now apply find_split_Some.
Qed.

Lemma occurs_app_l (m u v : str) : occurs m u -> occurs m (u ++ v).
Proof.
  intros (p & s & ->). exists p, (s ++ v). now rewrite <- !app_assoc.
Qed.

Lemma occurs_app_r (m u v : str) : occurs m v -> occurs m (u ++ v).
Proof.
  intros (p & s & ->). exists (u ++ p), s. now rewrite <- !app_assoc.
Qed.

(** Replacing another placeholder [m] by its group [t] keeps the shape
    "no [n], then the group [g], then some [n]". *)
Lemma replace_keeps_shape (m t n g x : str) :
  apart m g = true -> apart m n = true ->
  apart n m = true -> apart n t = true ->
  ~ In "$"%char t ->
  (exists X Y, x = X ++ g ++ Y /\ ~ occurs n X /\ occurs n Y) ->
  exists X Y,
    replace m t x = X ++ g ++ Y /\ ~ occurs n X /\ occurs n Y.
Proof.
  intros Amg Amn Anm Ant Ht (X & Y & -> & HX & HY).
  unfold replace. rewrite (find_split_across m g X Y Amg).
  destruct (find_split m X) as [[p s]|] eqn:FX.
  - rewrite GetSubstitution_literal by exact Ht.
    apply find_split_Some in FX. subst X.
    exists (p ++ t ++ s), Y. repeat split.
    + now rewrite <- !app_assoc.
    + intros H. apply (occurs_across n t p s Ant) in H. apply HX.
      destruct H as [H|H].
      * now apply occurs_app_l.
      * now apply occurs_app_r, occurs_app_r.
    + exact HY.
  - destruct (find_split m Y) as [[p s]|] eqn:FY.
    + rewrite GetSubstitution_literal by exact Ht.
      apply find_split_Some in FY. subst Y.
      exists X, (p ++ t ++ s). repeat split.
      * now rewrite <- !app_assoc.
      * exact HX.
      * apply (occurs_across n m p s Anm) in HY. destruct HY as [H|H].
        -- now apply occurs_app_l.
        -- now apply occurs_app_r, occurs_app_r.
    + exists X, Y. repeat split; assumption.
Qed.

(** After a text without an opening bracket, a placeholder is the first
    one. *)
Lemma find_split_at_raw (r u v : str) :
  ~ In "["%char u ->
  find_split ("["%char :: r) (u ++ ("["%char :: r) ++ v) = Some (u, v).
Proof.
  intros H. induction u as [|c u IH].
  - apply (find_split_here ("["%char :: r) v).
  - assert (Hu : ~ In "["%char u) by (intros Hin; apply H; now right).
    rewrite <- app_comm_cons, find_split_eq, prefix_b_cons.
    destruct (Ascii.eqb_spec "[" c) as [<-|_]; [exfalso; apply H; now left|].
    cbn [andb]. now rewrite (IH Hu).
Qed.

Lemma replace_at_raw (r u v tmpl : str) :
  ~ In "["%char u -> ~ In "$"%char tmpl ->
  replace ("["%char :: r) tmpl (u ++ ("["%char :: r) ++ v) = u ++ tmpl ++ v.
Proof.
  intros Hu Ht. apply replace_literal; [exact Ht|].
  now apply find_split_at_raw.
Qed.

Lemma needle_is_escaped (g : placeholder) :
  escapeRegExp (placeholder_text g) = needle g.
Proof. now destruct g. Qed.

Lemma needle_nonempty (g : placeholder) : needle g <> [].
Proof. now destruct g. Qed.

Lemma not_in_app (c : ascii) (u v : str) :
  ~ In c u -> ~ In c v -> ~ In c (u ++ v).
Proof. intros Hu Hv H. apply in_app_or in H. tauto. Qed.

End Once.

(** Closes a goal [~ occurs m x] where [x] is made of texts without an
    opening bracket and of placeholders or groups that [m] cannot
    overlap. *)
Ltac absent :=
  let H := fresh "H" in
  intros H;
  repeat (apply Once.occurs_across in H; [destruct H as [H|H]|reflexivity]);
  (eapply Templates.no_bracket_absent in H;
   [exact H | simpl; tauto | assumption]).

Lemma twice_in_template (g : placeholder) (a b c : str) :
  occurs_twice (placeholder_text g)
    (a ++ placeholder_text g ++ b ++ placeholder_text g ++ c) /\
  occurs_twice (needle g)
    (escapeRegExp
       (a ++ placeholder_text g ++ b ++ placeholder_text g ++ c)).
Proof.
  assert (T : occurs_twice (placeholder_text g)
                (a ++ placeholder_text g ++ b ++ placeholder_text g ++ c))
    by (now exists a, b, c).
  split; [exact T|]. rewrite <- Once.needle_is_escaped.
  now apply Occurrences.escapeRegExp_occurs_twice.
Qed.

(** In the pattern the captures are read with, the group stands where the
    first of the two placeholders was: no escaped placeholder is left
    before it, and one is left after it. *)
Lemma first_pattern_takes_first (g : placeholder) (a b c : str) :
  exists X Y,
    findVariablesRegexString
      (a ++ placeholder_text g ++ b ++ placeholder_text g ++ c)
      = X ++ group_text g ++ Y /\
    ~ occurs (needle g) X /\ occurs (needle g) Y.
Proof.
  destruct (twice_in_template g a b c) as [_ TE].
  unfold findVariablesRegexString.
  set (E := escapeRegExp _) in *. clearbody E.
  destruct g; cbn [needle group_text] in *.
  - destruct (Once.first_of_two _ _ (Once.needle_nonempty GHash) TE)
      as (p & s & F & Hp & Hs).
    apply Once.replace_keeps_shape; try reflexivity; [not_in_literal|].
    apply Once.replace_keeps_shape; try reflexivity; [not_in_literal|].
    rewrite (StringFacts.replace_literal _ _ _ p s); [|not_in_literal|exact F].
    now exists p, s.
  - apply (Occurrences.replace_keeps_two (lit "\[hash\]") (lit "\[name\]")
             REGEXES.HASH_REGEX) in TE; [|reflexivity].
    destruct (Once.first_of_two _ _ (Once.needle_nonempty GName) TE)
      as (p & s & F & Hp & Hs).
    apply Once.replace_keeps_shape; try reflexivity; [not_in_literal|].
    rewrite (StringFacts.replace_literal _ _ _ p s); [|not_in_literal|exact F].
    now exists p, s.
  - apply (Occurrences.replace_keeps_two (lit "\[hash\]") (lit "\[dir\]")
             REGEXES.HASH_REGEX) in TE; [|reflexivity].
    apply (Occurrences.replace_keeps_two (lit "\[name\]") (lit "\[dir\]")
             REGEXES.NAME_REGEX) in TE; [|reflexivity].
    destruct (Once.first_of_two _ _ (Once.needle_nonempty GDir) TE)
      as (p & s & F & Hp & Hs).
    rewrite (StringFacts.replace_literal _ _ _ p s); [|not_in_literal|exact F].
    now exists p, s.
Qed.

(** In the pattern the outputs are tested with, an escaped placeholder is
    left, whatever was captured. *)
Lemma second_pattern_keeps_one (g : placeholder) (a b c : str)
  (name dir : option str) :
  occurs (needle g)
    (findFilesWithSameVariablesRegexString
       (a ++ placeholder_text g ++ b ++ placeholder_text g ++ c) name dir).
Proof.
  destruct (twice_in_template g a b c) as [T _].
  unfold findFilesWithSameVariablesRegexString.
  set (t := a ++ _) in *. clearbody t.
  destruct g; cbn [needle placeholder_text] in *.
  - apply Occurrences.replace_takes_first.
    apply (Occurrences.escapeRegExp_occurs_twice (lit "[hash]")).
    apply Occurrences.replace_keeps_two; [reflexivity|].
    now apply Occurrences.replace_keeps_two.
  - apply Occurrences.replace_keeps_one; [reflexivity|].
    apply (Occurrences.escapeRegExp_occurs (lit "[name]")).
    apply Occurrences.replace_keeps_one; [reflexivity|].
    now apply Occurrences.replace_takes_first.
  - apply Occurrences.replace_keeps_one; [reflexivity|].
    apply (Occurrences.escapeRegExp_occurs (lit "[dir]")).
    apply Occurrences.replace_takes_first.
    now apply Occurrences.replace_keeps_two.
Qed.

(** When the template holds no opening bracket besides the two
    placeholders, the pattern the captures are read with is known to the
    letter. *)
Lemma first_pattern_exact (g : placeholder) (a b c : str) :
  ~ In "["%char a -> ~ In "["%char b -> ~ In "["%char c ->
  findVariablesRegexString
    (a ++ placeholder_text g ++ b ++ placeholder_text g ++ c)
    = escapeRegExp a ++ group_text g ++ escapeRegExp b ++ needle g
        ++ escapeRegExp c.
Proof.
  intros Ha Hb Hc.
  pose proof (Templates.escapeRegExp_no_bracket _ Ha) as Ea.
  pose proof (Templates.escapeRegExp_no_bracket _ Hb) as Eb.
  pose proof (Templates.escapeRegExp_no_bracket _ Hc) as Ec.
  unfold findVariablesRegexString.
  rewrite !Occurrences.escapeRegExp_app, Once.needle_is_escaped.
  destruct g; cbn [needle group_text].
  - rewrite (Templates.replace_at (lit "hash\]") _ _ _ Ea); [|not_in_literal].
    rewrite (StringFacts.replace_absent (lit "\[name\]")) by absent.
    now rewrite (StringFacts.replace_absent (lit "\[dir\]")) by absent.
  - rewrite (StringFacts.replace_absent (lit "\[hash\]")) by absent.
    rewrite (Templates.replace_at (lit "name\]") _ _ _ Ea); [|not_in_literal].
    now rewrite (StringFacts.replace_absent (lit "\[dir\]")) by absent.
  - rewrite (StringFacts.replace_absent (lit "\[hash\]")) by absent.
    rewrite (StringFacts.replace_absent (lit "\[name\]")) by absent.
    now rewrite (Templates.replace_at (lit "dir\]") _ _ _ Ea);
      [|not_in_literal].
Qed.

Lemma first_pattern_compiled (g : placeholder) (a b c : str) :
  ~ In "["%char a -> ~ In "["%char b -> ~ In "["%char c ->
  RegExp.create
    (findVariablesRegexString
       (a ++ placeholder_text g ++ b ++ placeholder_text g ++ c))
    = Ok (regex_of
            (map tok_of_char a ++ TGroup g ::
             map tok_of_char (b ++ placeholder_text g ++ c))).
Proof.
  intros Ha Hb Hc. rewrite (first_pattern_exact g a b c Ha Hb Hc).
  destruct (Placeholders.escapeRegExp_tokens a) as (Ta & Fa & Ga).
  destruct (Placeholders.escapeRegExp_tokens (b ++ placeholder_text g ++ c))
    as (Tb & Fb & Gb).
  assert (R : render (map tok_of_char a ++ TGroup g ::
                      map tok_of_char (b ++ placeholder_text g ++ c)) =
              escapeRegExp a ++ group_text g ++ escapeRegExp b ++ needle g
                ++ escapeRegExp c).
  { rewrite Placeholders.render_app, <- Ta. f_equal.
    change (render (TGroup g :: ?l)) with (group_text g ++ render l).
    rewrite <- Tb, !Occurrences.escapeRegExp_app, Once.needle_is_escaped.
    reflexivity. }
  rewrite <- R. apply Patterns.create_tokens.
  - apply Forall_app. split; [exact Fa|]. now constructor.
  - rewrite Placeholders.groups_of_app. cbn [groups_of].
    rewrite Ga, Gb. cbn [app]. repeat constructor. intros [].
Qed.

(** Under the same condition, and with a capture that holds neither an
    opening bracket nor a dollar sign, so is the pattern the outputs are
    tested with. *)
Lemma second_pattern_exact (g : placeholder) (a b c : str)
  (name dir : option str) :
  ~ In "["%char a -> ~ In "["%char b -> ~ In "["%char c ->
  ~ In "$"%char (capture_of g name dir) ->
  ~ In "["%char (capture_of g name dir) ->
  findFilesWithSameVariablesRegexString
    (a ++ placeholder_text g ++ b ++ placeholder_text g ++ c) name dir
    = escapeRegExp a ++ substituted g name dir ++ escapeRegExp b
        ++ needle g ++ escapeRegExp c.
Proof.
  intros Ha Hb Hc Hd Hk.
  pose proof (Templates.escapeRegExp_no_bracket _ Ha) as Ea.
  pose proof (Templates.escapeRegExp_no_bracket _ Hb) as Eb.
  pose proof (Templates.escapeRegExp_no_bracket _ Hc) as Ec.
  unfold findFilesWithSameVariablesRegexString.
  destruct g; cbn [needle placeholder_text substituted capture_of] in *.
  - rewrite (StringFacts.replace_absent (lit "[name]")) by absent.
    rewrite (StringFacts.replace_absent (lit "[dir]")) by absent.
    rewrite !Occurrences.escapeRegExp_app.
    change (escapeRegExp (lit "[hash]")) with (lit "\[hash\]").
    now rewrite (Templates.replace_at (lit "hash\]") _ _ _ Ea);
      [|not_in_literal].
  - rewrite (Once.replace_at_raw (lit "name]") _ _ _ Ha Hd).
    rewrite (app_assoc a), (app_assoc (a ++ or_empty name)).
    assert (Hu : ~ In "["%char ((a ++ or_empty name) ++ b))
      by (now repeat apply Once.not_in_app).
    pose proof (Templates.escapeRegExp_no_bracket _ Hu) as Eu.
    rewrite (StringFacts.replace_absent (lit "[dir]")) by absent.
    rewrite (Occurrences.escapeRegExp_app (_ ++ b)),
      (Occurrences.escapeRegExp_app (lit "[name]")).
    change (escapeRegExp (lit "[name]")) with (lit "\[name\]").
    rewrite (StringFacts.replace_absent (lit "\[hash\]")) by absent.
    rewrite !Occurrences.escapeRegExp_app. now rewrite <- !app_assoc.
  - rewrite (StringFacts.replace_absent (lit "[name]")) by absent.
    rewrite (Once.replace_at_raw (lit "dir]") _ _ _ Ha Hd).
    rewrite (app_assoc a), (app_assoc (a ++ or_empty dir)).
    assert (Hu : ~ In "["%char ((a ++ or_empty dir) ++ b))
      by (now repeat apply Once.not_in_app).
    pose proof (Templates.escapeRegExp_no_bracket _ Hu) as Eu.
    rewrite (Occurrences.escapeRegExp_app (_ ++ b)),
      (Occurrences.escapeRegExp_app (lit "[dir]")).
    change (escapeRegExp (lit "[dir]")) with (lit "\[dir\]").
    rewrite (StringFacts.replace_absent (lit "\[hash\]")) by absent.
    rewrite !Occurrences.escapeRegExp_app. now rewrite <- !app_assoc.
Qed.

(** C9: in a naming template that holds a placeholder twice, each
    substitution takes the first one only. In the pattern the captures are
    read with, the group stands in the place of the first placeholder: no
    escaped placeholder comes before the group and one comes after it; in
    the pattern the outputs are tested with, an escaped placeholder is
    left as well, whatever was captured. When the template holds no other
    opening bracket both patterns are known to the letter: the texts
    around the placeholders, escaped, the group (or the escaped capture)
    for the first placeholder and the escaped placeholder, as literal
    text, for the second; [new RegExp] compiles the second one as plain
    characters. *)
Theorem placeholder_replaced_once (g : placeholder) (a b c : str) :
  (exists X Y,
     findVariablesRegexString
       (a ++ placeholder_text g ++ b ++ placeholder_text g ++ c)
       = X ++ group_text g ++ Y /\
     ~ occurs (escapeRegExp (placeholder_text g)) X /\
     occurs (escapeRegExp (placeholder_text g)) Y) /\
  (forall name dir,
     occurs (escapeRegExp (placeholder_text g))
       (findFilesWithSameVariablesRegexString
          (a ++ placeholder_text g ++ b ++ placeholder_text g ++ c)
          name dir)) /\
  (~ In "["%char a -> ~ In "["%char b -> ~ In "["%char c ->
   findVariablesRegexString
     (a ++ placeholder_text g ++ b ++ placeholder_text g ++ c)
     = escapeRegExp a ++ group_text g ++ escapeRegExp b
         ++ escapeRegExp (placeholder_text g) ++ escapeRegExp c /\
   RegExp.create
     (findVariablesRegexString
        (a ++ placeholder_text g ++ b ++ placeholder_text g ++ c))
     = Ok (regex_of
             (map tok_of_char a ++ TGroup g ::
              map tok_of_char (b ++ placeholder_text g ++ c))) /\
   forall name dir,
     ~ In "$"%char (capture_of g name dir) ->
     ~ In "["%char (capture_of g name dir) ->
     findFilesWithSameVariablesRegexString
       (a ++ placeholder_text g ++ b ++ placeholder_text g ++ c) name dir
       = escapeRegExp a ++ substituted g name dir ++ escapeRegExp b
           ++ escapeRegExp (placeholder_text g) ++ escapeRegExp c).
Proof.
  rewrite !Once.needle_is_escaped. split; [|split].
  - apply first_pattern_takes_first.
  - intros name dir. apply second_pattern_keeps_one.
  - intros Ha Hb Hc. split; [|split].
    + now apply first_pattern_exact.
    + now apply first_pattern_compiled.
    + intros name dir Hd Hk. now apply second_pattern_exact.
Qed.

(** C9 on "[name]-[name]", with the capture "app": the second [name]
    stays, escaped, in both patterns. *)
Lemma placeholder_replaced_once_witness :
  findVariablesRegexString (lit "[name]-[name]")
    = lit "(?<name>[^\s\/]+)\-\[name\]" /\
  findFilesWithSameVariablesRegexString (lit "[name]-[name]")
    (Some (lit "app")) None
    = lit "app\-\[name\]".
Proof.
  destruct (placeholder_replaced_once GName [] (lit "-") []) as (_ & _ & H).
  destruct H as (E1 & _ & E2); try not_in_literal.
  split; [exact E1|].
  apply (E2 (Some (lit "app")) None); not_in_literal.
Defined.
